(** * A command-line chat agent with one tool: web search

    Shallow embedding of [src/backend/src/lib/tool.ts]: the transcript
    [messages], the tool executor [webSearch] and the agent loop of [main],
    followed by the properties of the specification that concern them.

    The two hosted services (the completion provider behind [groq] and the
    search provider behind [tvly]) and the two host functions whose tables
    are not part of the repository ([JSON.parse], [String.prototype.toLowerCase])
    are parameters of the development: every theorem holds for all of them.
    Console output is not modelled. *)

From Stdlib Require Import String Ascii.
From Stdlib Require Import List NArith ZArith Arith Lia Bool.
Import ListNotations.

Set Warnings "-register-all".

(** ** JavaScript strings

    A JavaScript string is a sequence of UTF-16 code units; [length],
    [substring] and [trim] all work on code units. *)

Definition code_unit := N.
Definition JsString := list code_unit.

(** A literal of the source (all of them are ASCII). *)
Definition lit (s : string) : JsString :=
  List.map N_of_ascii (list_ascii_of_string s).

(** [\n] and the double quote, which a Rocq literal cannot hold. *)
Definition nl : JsString := [10%N].
Definition dq : JsString := [34%N].

Fixpoint str_eqb (a b : JsString) : bool :=
  match a, b with
  | [], [] => true
  | x :: a', y :: b' => N.eqb x y && str_eqb a' b'
  | _, _ => false
  end.

(** WhiteSpace and LineTerminator of ECMAScript, the code units that
    [trim] strips. *)
Definition white_space_units : list code_unit :=
  [9; 10; 11; 12; 13; 32; 160; 5760; 8232; 8233; 8239; 8287; 12288; 65279]%N.

Definition is_white_space (c : code_unit) : bool :=
  existsb (N.eqb c) white_space_units || ((8192 <=? c)%N && (c <=? 8202)%N).

Fixpoint trimStart (s : JsString) : JsString :=
  match s with
  | c :: s' => if is_white_space c then trimStart s' else s
  | [] => []
  end.

Definition trimEnd (s : JsString) : JsString := rev (trimStart (rev s)).

Definition trim (s : JsString) : JsString := trimEnd (trimStart s).

(** [s.substring(0, n)] for a non-negative [n]. *)
Definition substring0 (n : nat) (s : JsString) : JsString := firstn n s.

(** Decimal rendering of a non-negative integer, as a template literal
    prints an array index or a length. *)
Fixpoint digits (d : Decimal.uint) : JsString :=
  match d with
  | Decimal.Nil => []
  | Decimal.D0 d' => 48%N :: digits d'
  | Decimal.D1 d' => 49%N :: digits d'
  | Decimal.D2 d' => 50%N :: digits d'
  | Decimal.D3 d' => 51%N :: digits d'
  | Decimal.D4 d' => 52%N :: digits d'
  | Decimal.D5 d' => 53%N :: digits d'
  | Decimal.D6 d' => 54%N :: digits d'
  | Decimal.D7 d' => 55%N :: digits d'
  | Decimal.D8 d' => 56%N :: digits d'
  | Decimal.D9 d' => 57%N :: digits d'
  end.

Definition number_to_string (n : nat) : JsString := digits (Nat.to_uint n).

(** [xs.join(sep)] on strings. *)
Fixpoint join (sep : JsString) (xs : list JsString) : JsString :=
  match xs with
  | [] => []
  | [x] => x
  | x :: rest => x ++ sep ++ join sep rest
  end.

(** [xs.map((x, index) => f x index)], counting from [i]. *)
Fixpoint map_indexed {A B : Type} (f : A -> nat -> B) (i : nat) (xs : list A) : list B :=
  match xs with
  | [] => []
  | x :: rest => f x i :: map_indexed f (S i) rest
  end.

(** [s || d] on a possibly absent string: the empty string is falsy. *)
Definition or_else (s : option JsString) (d : JsString) : JsString :=
  match s with
  | Some (c :: s') => c :: s'
  | _ => d
  end.

(** ** Values produced by JSON.parse *)

Inductive JsValue : Type :=
| JNull
| JBool (b : bool)
| JNumber (z : Z)     (* only its being zero is observed; any non-zero
                         value stands for a fractional literal *)
| JString (s : JsString)
| JArray (items : list JsValue)
| JObject (props : list (JsString * JsValue)).

Fixpoint get_prop (key : JsString) (props : list (JsString * JsValue)) : option JsValue :=
  match props with
  | [] => None
  | (k, v) :: rest => if str_eqb k key then Some v else get_prop key rest
  end.

(** [!v], where [None] is [undefined]. *)
Definition falsy (v : option JsValue) : bool :=
  match v with
  | None => true
  | Some JNull => true
  | Some (JBool b) => negb b
  | Some (JNumber z) => Z.eqb z 0
  | Some (JString s) => match s with [] => true | _ => false end
  | Some (JArray _) => false
  | Some (JObject _) => false
  end.

(** ** Transcript *)

Record ToolCall : Type := {
  tc_id : JsString;
  fn_name : JsString;        (* toolCall.function.name *)
  fn_arguments : JsString    (* toolCall.function.arguments, raw text *)
}.

(** ChatCompletionMessageParam, a union tagged by [role]. *)
Inductive Message : Type :=
| System (content : JsString)
| User (content : JsString)
| Assistant (content : option JsString) (tool_calls : option (list ToolCall))
| Tool (tool_call_id : JsString) (content : JsString).

(** ** Search provider records *)

Record SearchResult : Type := {
  title : option JsString;
  url : JsString;
  content : option JsString
}.

(** ** Exceptions, calls made to the outside, and the state *)

Inductive Exn : Type :=
| TypeError
| SyntaxError
| ApiError (status : option Z) (code : option JsString).   (* error.status, error.error.code *)

Inductive Outcome (A : Type) : Type :=
| Returns (a : A)
| Throws (e : Exn).
Arguments Returns {A} a.
Arguments Throws {A} e.

Inductive Call : Type :=
| Completion (toolsEnabled : bool)   (* groq.chat.completions.create *)
| WebSearch (args : JsValue)         (* webSearch is entered *)
| TavilySearch (query : JsString).   (* tvly.search *)

(** [messages] is the module-level array of the source. [history] and
    [calls] are ghost: every value [messages] has had, oldest first, and
    every call made, oldest first. *)
Record State : Type := {
  messages : list Message;
  history : list (list Message);
  calls : list Call
}.

Definition is_completion (c : Call) : bool :=
  match c with Completion _ => true | _ => false end.
Definition is_tavily (c : Call) : bool :=
  match c with TavilySearch _ => true | _ => false end.

Definition completions (st : State) : list Call := filter is_completion (calls st).
Definition searches (st : State) : list Call := filter is_tavily (calls st).

(** ** A state-and-exception monad

    A thrown exception keeps the state reached so far, as mutation of
    [messages] does in the source. *)

Definition Eff (A : Type) : Type := State -> Outcome A * State.

Definition ret {A : Type} (a : A) : Eff A := fun st => (Returns a, st).

Definition throw {A : Type} (e : Exn) : Eff A := fun st => (Throws e, st).

Definition bind {A B : Type} (c : Eff A) (k : A -> Eff B) : Eff B :=
  fun st =>
    match c st with
    | (Returns a, st') => k a st'
    | (Throws e, st') => (Throws e, st')
    end.

Definition try_catch {A : Type} (body : Eff A) (handler : Exn -> Eff A) : Eff A :=
  fun st =>
    match body st with
    | (Returns a, st') => (Returns a, st')
    | (Throws e, st') => handler e st'
    end.

Definition lift {A : Type} (o : Outcome A) : Eff A := fun st => (o, st).

Declare Scope eff_scope.
Delimit Scope eff_scope with eff.
Notation "x <- c1 ;; c2" := (bind c1 (fun x => c2))
  (at level 61, c1 at next level, right associativity) : eff_scope.
Notation "c1 ;; c2" := (bind c1 (fun _ => c2))
  (at level 61, right associativity) : eff_scope.
Local Open Scope eff_scope.

Definition set_messages (ms : list Message) : Eff unit :=
  fun st => (Returns tt,
             {| messages := ms; history := history st ++ [ms]; calls := calls st |}).

(** [messages.push(m)] *)
Definition push (m : Message) : Eff unit :=
  fun st => set_messages (messages st ++ [m]) st.

(** [messages.pop()]; on an empty array it changes nothing. *)
Definition pop : Eff unit :=
  fun st => set_messages (removelast (messages st)) st.

Definition record_call (c : Call) : Eff unit :=
  fun st => (Returns tt,
             {| messages := messages st; history := history st; calls := calls st ++ [c] |}).

(** One candidate of a completion: [choice.message]. *)
Record ChoiceMessage : Type := {
  msg_content : option JsString;
  msg_tool_calls : option (list ToolCall)
}.

(** [if (s)] on a possibly null string. *)
Definition truthy (s : option JsString) : bool :=
  match s with
  | Some (_ :: _) => true
  | _ => false
  end.

(** ** The literals of webSearch *)

Definition no_query_text : JsString := lit "Error: No search query provided".

Definition no_results_text (query : JsString) : JsString :=
  lit "No results found for " ++ dq ++ query ++ dq ++ lit ". Please try a different search query.".

Definition search_failed_text (query : JsString) : JsString :=
  lit "Error occurred while searching for " ++ dq ++ query ++ dq ++ lit ". Please try again.".

(** The content of a result as it is shown: at most 500 code units, with
    the marker when it was cut. *)
Definition shown_content (result : SearchResult) : JsString :=
  let content := or_else (content result) [] in
  if 500 <? length content then substring0 500 content ++ lit "..." else content.

(** Everything of a block before the content. *)
Definition block_head (result : SearchResult) (index : nat) : JsString :=
  lit "[" ++ number_to_string (index + 1) ++ lit "] Title: "
    ++ or_else (title result) (lit "No title")
    ++ nl ++ lit "URL: " ++ url result
    ++ nl ++ lit "Content: ".

(** The callback of [.map] at lines 211-220. *)
Definition format_result (result : SearchResult) (index : nat) : JsString :=
  block_head result index ++ shown_content result.

Definition formattedResults (results : list SearchResult) : JsString :=
  join (nl ++ nl) (map_indexed format_result 0 (firstn 3 results)).

Definition search_results_text (query : JsString) (results : list SearchResult) : JsString :=
  lit "Search Results for " ++ dq ++ query ++ dq ++ lit ":" ++ nl ++ nl
    ++ formattedResults results
    ++ nl ++ nl ++ lit "Total results found: " ++ number_to_string (length results).

(** The parameter pattern [{ query }] applied to the parsed arguments:
    destructuring [null] throws, a missing property is [undefined]. *)
Definition destructure_query (args : JsValue) : Outcome (option JsValue) :=
  match args with
  | JNull => Throws TypeError
  | JObject props => Returns (get_prop (lit "query") props)
  | _ => Returns None
  end.

Definition invalid_parameters_text : JsString := lit "Error: Invalid search parameters".

Definition system_message : Message :=
  System (lit "You are a smart helpful assistant who answers the asked questions. You have access to the following tool:"
    ++ nl ++ lit "      "
    ++ nl ++ lit "1. webSearch - Search the latest information and real time data on the internet."
    ++ nl ++ lit "      "
    ++ nl ++ lit "When you need to use the webSearch tool, respond with a JSON object containing:"
    ++ nl ++ lit "- " ++ dq ++ lit "query" ++ dq ++ lit ": The search query string"
    ++ nl
    ++ nl ++ lit "Important: Always use the tool calling format specified by the API. Do not use XML or other formats.").

(** The state at start-up: [messages] holds the system instruction. *)
Definition initial_state : State :=
  {| messages := [system_message]; history := [[system_message]]; calls := [] |}.

(** [toolCall.function.name === "webSearch"] *)
Definition recognized (toolCall : ToolCall) : bool :=
  str_eqb (fn_name toolCall) (lit "webSearch").

(** ** Vocabulary of the properties *)

(** A query that is empty or made of white space only. *)
Definition blank (q : JsString) : Prop :=
  Forall (fun c => is_white_space c = true) q.

(** The messages that [after] has beyond the length of [before]. *)
Definition appended (before after : State) : list Message :=
  skipn (length (messages before)) (messages after).

Definition is_tool_message (m : Message) : bool :=
  match m with Tool _ _ => true | _ => false end.

(** What one tool call can leave in the transcript. *)
Inductive segment_of (toolCall : ToolCall) : list Message -> Prop :=
| seg_ignored :
    recognized toolCall = false -> segment_of toolCall []
| seg_error :
    recognized toolCall = true ->
    segment_of toolCall [Tool (tc_id toolCall) invalid_parameters_text]
| seg_result (text : JsString) :
    recognized toolCall = true ->
    segment_of toolCall [Assistant None (Some [toolCall]); Tool (tc_id toolCall) text].

Definition starts_with_system (transcript : list Message) : Prop :=
  hd_error transcript = Some system_message.

(** Every value of the transcript so far starts with the system
    instruction, the present value is one of them, and it has [n] messages
    at least. *)
Definition transcript_ok (n : nat) (st : State) : Prop :=
  Forall starts_with_system (history st)
  /\ In (messages st) (history st)
  /\ n <= length (messages st).

Definition calls_within (k : nat) (st : State) : Prop :=
  length (completions st) <= k.

(** [hoare P c Q]: from a state that satisfies [P], the computation [c]
    ends, returning or throwing, in a state that satisfies [Q]. *)
Definition hoare {A : Type} (P : State -> Prop) (c : Eff A) (Q : State -> Prop) : Prop :=
  forall st : State, P st -> Q (snd (c st)).

(** Predicates on the state that pushing a message, recording a call of
    the tool executor, or recording any call cannot break. *)
Definition push_stable (P : State -> Prop) : Prop :=
  forall (m : Message) (st : State), P st -> P (snd (push m st)).

Definition search_stable (P : State -> Prop) : Prop :=
  forall (c : Call) (st : State), is_completion c = false -> P st -> P (snd (record_call c st)).

Definition call_stable (P : State -> Prop) : Prop :=
  forall (c : Call) (st : State), P st -> P (snd (record_call c st)).


Inductive Flow : Type :=
| Break          (* the inner loop was left *)
| Spinning.      (* the bound on iterations was reached with the loop still running *)

Inductive TurnEnd : Type :=
| Settled        (* control is back at the prompt *)
| InTurn.        (* the turn is still in its inner loop *)

Inductive SessionEnd : Type :=
| Exited          (* the exit word was read *)
| AwaitingInput   (* all the given lines were consumed *)
| Busy.           (* a turn is still in its inner loop *)

(** The block of a result as the specification words it, written without
    the functions that embed the source: the number of the block, a digit
    counted from 1, the title or [No title] when it is absent or empty,
    the url, and the content, cut to its first 500 code units and followed
    by three dots when it was longer. *)
Definition spec_block (number : nat) (r : SearchResult) : JsString :=
  lit "[" ++ [N.of_nat (48 + number)] ++ lit "] Title: "
    ++ match title r with
       | Some (c :: t) => c :: t
       | _ => lit "No title"
       end
    ++ nl ++ lit "URL: " ++ url r
    ++ nl ++ lit "Content: "
    ++ match content r with
       | Some c => if 500 <? length c then firstn 500 c ++ lit "..." else c
       | None => []
       end.

(** The ids carried by the tool messages of a list, in order. *)
Definition tool_ids (ms : list Message) : list JsString :=
  flat_map (fun m => match m with Tool id _ => [id] | _ => [] end) ms.

Definition searches_within (k : nat) (st : State) : Prop :=
  length (searches st) <= k.

(** The completion calls of [n] successive passes of the inner loop: a
    first pass with tools, a second pass without, and so on. *)
Fixpoint passes (n : nat) : list Call :=
  match n with
  | 0 => []
  | 1 => [Completion true]
  | S (S m) => Completion true :: Completion false :: passes m
  end.

(** The messages of a session in which each line gets a plain answer. *)
Fixpoint exchanges (lines : list JsString) (answers : list (option JsString)) : list Message :=
  match lines, answers with
  | question :: lines', answer :: answers' =>
      User question :: Assistant answer None :: exchanges lines' answers'
  | _, _ => []
  end.

(** ** Sample data

    Concrete collaborators and inputs on which the theorems below are
    instantiated. *)

Module Sample.

(** A provider that answers the [n]-th request with the [n]-th entry of
    a script, and with no candidate once the script is over. *)
Definition scripted {A B C : Type} (script : list (Outcome (list C)))
    (n : nat) (_ : A) (_ : B) : Outcome (list C) :=
  nth n script (Returns []).

Fixpoint strip_prefix (p s : JsString) : option JsString :=
  match p, s with
  | [], _ => Some s
  | x :: p', y :: s' => if N.eqb x y then strip_prefix p' s' else None
  | _ :: _, [] => None
  end.

Definition query_json (q : JsString) : JsString :=
  lit "{" ++ dq ++ lit "query" ++ dq ++ lit ":" ++ dq ++ q ++ dq ++ lit "}".

Definition plain_unit (c : code_unit) : bool :=
  (32 <=? c)%N && negb (N.eqb c 34) && negb (N.eqb c 92).

(** A parser that accepts the text [null] and the texts that [query_json]
    builds from a string without quote, backslash or control character,
    and refuses every other text. JSON.parse gives the same values on the
    texts it accepts, and also throws on the malformed text used below. *)
Definition parse (text : JsString) : option JsValue :=
  if str_eqb text (lit "null") then Some JNull
  else
    match strip_prefix (lit "{" ++ dq ++ lit "query" ++ dq ++ lit ":" ++ dq) text with
    | Some rest =>
        match strip_prefix (lit "}" ++ dq) (rev rest) with
        | Some inner =>
            if forallb plain_unit inner
            then Some (JObject [(lit "query", JString (rev inner))])
            else None
        | None => None
        end
    | None => None
    end.

Definition paris : JsString := lit "weather in Paris today".
Definition paris_args : JsValue := JObject [(lit "query", JString paris)].

Definition short_result : SearchResult :=
  {| title := Some (lit "Paris weather");
     url := lit "https://example.org/paris";
     content := Some (lit "18 degrees and partly cloudy") |}.

Definition long_result : SearchResult :=
  {| title := None;
     url := lit "https://example.org/long";
     content := Some (repeat 97%N 600) |}.

Definition five_results : list SearchResult :=
  [short_result; long_result; short_result; long_result; short_result].

Definition tvly_five (_ : nat) (_ : JsString) : Outcome (option (list SearchResult)) :=
  Returns (Some five_results).

Definition tvly_none (_ : nat) (_ : JsString) : Outcome (option (list SearchResult)) :=
  Returns (Some []).

Definition tvly_down (_ : nat) (_ : JsString) : Outcome (option (list SearchResult)) :=
  Throws TypeError.

Definition call_search : ToolCall :=
  {| tc_id := lit "call_1"; fn_name := lit "webSearch"; fn_arguments := query_json paris |}.

Definition call_malformed : ToolCall :=
  {| tc_id := lit "call_2"; fn_name := lit "webSearch"; fn_arguments := lit "{query:" |}.

Definition call_named_search : ToolCall :=
  {| tc_id := lit "call_3"; fn_name := lit "search"; fn_arguments := query_json paris |}.

Definition asks (toolCalls : list ToolCall) : Outcome (list ChoiceMessage) :=
  Returns [{| msg_content := None; msg_tool_calls := Some toolCalls |}].

Definition says (text : JsString) : Outcome (list ChoiceMessage) :=
  Returns [{| msg_content := Some text; msg_tool_calls := None |}].

Definition silent : Outcome (list ChoiceMessage) :=
  Returns [{| msg_content := None; msg_tool_calls := None |}].

Definition tool_use_failed : Outcome (list ChoiceMessage) :=
  Throws (ApiError (Some 400%Z) (Some (lit "tool_use_failed"))).

Definition answer : JsString := lit "It is 18 degrees and partly cloudy in Paris today.".

Definition question : JsString := lit "What is the weather in Paris today?".

Definition parses (toolCall : ToolCall) : bool :=
  match parse (fn_arguments toolCall) with Some _ => true | None => false end.

(** One tool round, then the answer. *)
Definition groq_one_round : nat -> list Message -> bool -> Outcome (list ChoiceMessage) :=
  scripted [asks [call_search]; says answer].

(** The second pass gives no content; the next two calls are a first and
    a second pass again. *)
Definition groq_two_rounds : nat -> list Message -> bool -> Outcome (list ChoiceMessage) :=
  scripted [asks [call_search]; silent; asks [call_search]; says answer].

(** A request with arguments that do not parse, then the answer. *)
Definition groq_malformed : nat -> list Message -> bool -> Outcome (list ChoiceMessage) :=
  scripted [asks [call_malformed]; says answer].

(** The second pass gives no content and the first pass that follows
    fails with status 400 and code tool_use_failed. *)
Definition groq_fails_after_round : nat -> list Message -> bool -> Outcome (list ChoiceMessage) :=
  scripted [asks [call_search]; silent; tool_use_failed; says answer].

(** The completion provider answers every request with plain text. *)
Definition groq_chatty (_ : nat) (_ : list Message) (_ : bool) : Outcome (list ChoiceMessage) :=
  says answer.

(** The tool-use failure on the first pass, then a failure of the
    fallback call with status 500. *)
Definition groq_fails_twice : nat -> list Message -> bool -> Outcome (list ChoiceMessage) :=
  scripted [tool_use_failed; Throws (ApiError (Some 500%Z) None)].

(** A failure with status 429 on the first pass. *)
Definition groq_rate_limited : nat -> list Message -> bool -> Outcome (list ChoiceMessage) :=
  scripted [Throws (ApiError (Some 429%Z) (Some (lit "rate_limit_exceeded"))); says answer].

(** A host [toLowerCase] that is right on ASCII text. *)
Definition lower_ascii (s : JsString) : JsString :=
  List.map (fun c => if ((65 <=? c) && (c <=? 90))%N then (c + 32)%N else c) s.

(** [parse] extended to two more texts, an object without properties and
    an object whose query is the number 5; JSON.parse gives the same
    values on them. *)
Definition number_json : JsString := lit "{" ++ dq ++ lit "query" ++ dq ++ lit ":5}".

Definition parse_more (text : JsString) : option JsValue :=
  if str_eqb text (lit "{}") then Some (JObject [])
  else if str_eqb text number_json then Some (JObject [(lit "query", JNumber 5)])
  else parse text.

Definition call_no_query : ToolCall :=
  {| tc_id := lit "call_4"; fn_name := lit "webSearch"; fn_arguments := lit "{}" |}.

Definition call_number_query : ToolCall :=
  {| tc_id := lit "call_5"; fn_name := lit "webSearch"; fn_arguments := number_json |}.

(** A provider whose second answer depends on the transcript it is
    given: it answers with content only when the transcript ends with a
    tool message. *)
Definition groq_reads_results (n : nat) (ms : list Message) (_ : bool)
    : Outcome (list ChoiceMessage) :=
  match n with
  | 0 => asks [call_search]
  | _ => match last ms (System []) with
         | Tool _ _ => says answer
         | _ => silent
         end
  end.

Definition call_null : ToolCall :=
  {| tc_id := lit "call_6"; fn_name := lit "webSearch"; fn_arguments := lit "null" |}.

Definition call_blank_query : ToolCall :=
  {| tc_id := lit "call_7"; fn_name := lit "webSearch";
     fn_arguments := query_json (lit "  ") |}.

End Sample.

Section Agent.

(** Host and remote collaborators. [groq_create n transcript tools] is
    the answer to the [n]-th completion request (counting from 0) and
    [tvly_search n query] the answer to the [n]-th search request: the
    services may answer the same request differently each time. *)
Variable JSON_parse : JsString -> option JsValue.     (* [None]: SyntaxError *)
Variable toLowerCase : JsString -> JsString.
Variable groq_create : nat -> list Message -> bool -> Outcome (list ChoiceMessage).
Variable tvly_search : nat -> JsString -> Outcome (option (list SearchResult)).

(** [await groq.chat.completions.create({ messages, ..., tools? })];
    the result is [completions.choices], an array as the SDK declares
    it. *)
Definition create_completion (toolsEnabled : bool) : Eff (list ChoiceMessage) :=
  fun st =>
    (groq_create (length (completions st)) (messages st) toolsEnabled,
     snd (record_call (Completion toolsEnabled) st)).

(** [await tvly.search(query, { maxResults: 5, ... })]; the result is
    [response.results]. *)
Definition search_provider (query : JsString) : Eff (option (list SearchResult)) :=
  fun st =>
    (tvly_search (length (searches st)) query,
     snd (record_call (TavilySearch query) st)).

(** [webSearch], lines 195-231. *)
Definition webSearch (args : JsValue) : Eff JsString :=
  record_call (WebSearch args) ;;
  query <- lift (destructure_query args) ;;
  if falsy query then ret no_query_text
  else
    match query with
    | Some (JString q) =>
        match trim q with
        | [] => ret no_query_text
        | _ :: _ =>
            try_catch
              (results <- search_provider q ;;
               match results with
               | Some (r :: rs) => ret (search_results_text q (r :: rs))
               | _ => ret (no_results_text q)
               end)
              (fun _ => ret (search_failed_text q))
        end
    | _ => throw TypeError    (* query.trim is not a function *)
    end.

(** The body of [for (const toolCall of toolCalls)], lines 111-137. *)
Definition handle_tool_call (toolCall : ToolCall) : Eff unit :=
  if recognized toolCall then
    try_catch
      (args <- lift (match JSON_parse (fn_arguments toolCall) with
                     | Some v => Returns v
                     | None => Throws SyntaxError
                     end) ;;
       toolResult <- webSearch args ;;
       push (Assistant None (Some [toolCall])) ;;
       push (Tool (tc_id toolCall) toolResult))
      (fun _ => push (Tool (tc_id toolCall) invalid_parameters_text))
  else ret tt.

Fixpoint for_each_tool_call (toolCalls : list ToolCall) : Eff unit :=
  match toolCalls with
  | [] => ret tt
  | toolCall :: rest => handle_tool_call toolCall ;; for_each_tool_call rest
  end.

(** The inner [while (true)], lines 45-156, run for at most [fuel]
    iterations. *)
Fixpoint agent_loop (fuel : nat) : Eff Flow :=
  match fuel with
  | O => ret Spinning
  | S fuel' =>
      choices <- create_completion true ;;
      match choices with
      | [] => ret Break
      | message :: _ =>
          if truthy (msg_content message) then
            push (Assistant (msg_content message) None) ;; ret Break
          else
            match msg_tool_calls message with
            | None | Some [] => ret Break
            | Some (tc :: tcs) =>
                for_each_tool_call (tc :: tcs) ;;
                finalChoices <- create_completion false ;;
                match finalChoices with
                | finalMessage :: _ =>
                    if truthy (msg_content finalMessage) then
                      push (Assistant (msg_content finalMessage) None) ;; ret Break
                    else agent_loop fuel'
                | [] => agent_loop fuel'
                end
            end
      end
  end.

(** [error?.status === 400 && error?.error?.code === "tool_use_failed"] *)
Definition is_tool_use_failed (error : Exn) : bool :=
  match error with
  | ApiError (Some status) (Some code) =>
      Z.eqb status 400 && str_eqb code (lit "tool_use_failed")
  | _ => false
  end.

(** The handler of the outer [catch], lines 157-189. *)
Definition on_error (question : JsString) (error : Exn) : Eff unit :=
  if is_tool_use_failed error then
    pop ;;
    push (User question) ;;
    fallbackChoices <- create_completion false ;;
    match fallbackChoices with
    | fallbackMessage :: _ =>
        if truthy (msg_content fallbackMessage) then
          push (Assistant (msg_content fallbackMessage) None)
        else ret tt
    | [] => ret tt
    end
  else ret tt.

(** One pass of the outer loop after the exit test, lines 39-189. An
    exception of the result is one that leaves [main]. *)
Definition turn (fuel : nat) (question : JsString) : Eff TurnEnd :=
  push (User question) ;;
  try_catch
    (flow <- agent_loop fuel ;;
     ret (match flow with Break => Settled | Spinning => InTurn end))
    (fun error => on_error question error ;; ret Settled).

(** The outer [while (true)] of [main] on the lines typed by the user. *)
Fixpoint main_loop (fuel : nat) (lines : list JsString) : Eff SessionEnd :=
  match lines with
  | [] => ret AwaitingInput
  | question :: rest =>
      if str_eqb (toLowerCase question) (lit "bye") then ret Exited
      else
        t <- turn fuel question ;;
        match t with
        | Settled => main_loop fuel rest
        | InTurn => ret Busy
        end
  end.

(** * Properties *)

(** ** Strings and lists *)

Lemma str_eqb_refl (a : JsString) : str_eqb a a = true.
Proof.
  induction a as [|x a IH]; simpl; [reflexivity|].
  now rewrite N.eqb_refl, IH.
Qed.

Lemma str_eqb_eq (a b : JsString) : str_eqb a b = true <-> a = b.
Proof.
  split.
  - revert b. induction a as [|x a IH]; intros [|y b]; simpl; try discriminate; auto.
    intros H. apply andb_true_iff in H as [Hx Hab].
    apply N.eqb_eq in Hx. f_equal; auto.
  - intros ->. apply str_eqb_refl.
Qed.

Lemma trimStart_blank (q : JsString) : blank q -> trimStart q = [].
Proof.
  induction 1 as [|c q Hc _ IH]; simpl; [reflexivity|].
  now rewrite Hc.
Qed.

Lemma trim_blank (q : JsString) : blank q -> trim q = [].
Proof.
  intros H. unfold trim, trimEnd. now rewrite (trimStart_blank q H).
Qed.

Lemma or_else_empty (c : JsString) : or_else (Some c) [] = c.
Proof. now destruct c. Qed.

Lemma appended_app (st st' : State) (added : list Message) :
  messages st' = messages st ++ added -> appended st st' = added.
Proof.
  intros H. unfold appended. rewrite H.
  rewrite skipn_app, skipn_all, Nat.sub_diag. reflexivity.
Qed.

(** ** The ghost call log *)

Lemma searches_record (c : Call) (st : State) :
  searches (snd (record_call c st)) = searches st ++ filter is_tavily [c].
Proof. unfold searches. simpl. apply filter_app. Qed.

Lemma completions_record (c : Call) (st : State) :
  completions (snd (record_call c st)) = completions st ++ filter is_completion [c].
Proof. unfold completions. simpl. apply filter_app. Qed.

(** ** The tool executor *)

(** What [webSearch] does when the [query] property is a string. *)
Lemma webSearch_string (args : JsValue) (q : JsString) (st : State) :
  destructure_query args = Returns (Some (JString q)) ->
  webSearch args st =
    let st1 := snd (record_call (WebSearch args) st) in
    match trim q with
    | [] => (Returns no_query_text, st1)
    | _ :: _ =>
        (match tvly_search (length (searches st)) q with
         | Returns (Some (r :: rs)) => Returns (search_results_text q (r :: rs))
         | Returns _ => Returns (no_results_text q)
         | Throws _ => Returns (search_failed_text q)
         end,
         snd (record_call (TavilySearch q) st1))
    end.
Proof.
  intros Hq. unfold webSearch, bind, lift. simpl. rewrite Hq. simpl.
  destruct q as [|c q]; [reflexivity|].
  destruct (trim (c :: q)) as [|c' q'] eqn:Ht; [reflexivity|].
  unfold try_catch, bind, search_provider, ret.
  unfold searches. simpl. rewrite filter_app. simpl. rewrite app_nil_r.
  fold (searches st).
  destruct (tvly_search (length (searches st)) (c :: q)) as [[[|r rs]|]|e]; reflexivity.
Qed.

(** C4. A result whose content has more than 500 code units is rendered
    with exactly its first 500 code units followed by the three dots; a
    content of at most 500 code units is rendered as it is, with no
    suffix. *)
Theorem truncation_law (result : SearchResult) (index : nat) (c : JsString) :
  content result = Some c ->
  (500 < length c ->
     format_result result index = block_head result index ++ firstn 500 c ++ lit "...") /\
  (length c <= 500 ->
     format_result result index = block_head result index ++ c).
Proof.
  intros Hc. unfold format_result, shown_content, substring0.
  rewrite Hc, or_else_empty.
  split; intros Hlen.
  - apply Nat.ltb_lt in Hlen. now rewrite Hlen.
  - destruct (Nat.ltb_spec 500 (length c)) as [Hlt|_]; [lia|reflexivity].
Qed.

(** The block that the source renders is the block of the specification. *)
Lemma format_result_spec_block (r : SearchResult) (i : nat) :
  i < 3 -> format_result r i = spec_block (i + 1) r.
Proof.
  intros Hi. unfold format_result, block_head, shown_content, substring0, spec_block.
  destruct i as [|[|[|i]]]; try lia;
    destruct (title r) as [[|c t]|]; destruct (content r) as [[|c' t']|];
    cbn [or_else Nat.add]; rewrite <- ?app_assoc; reflexivity.
Qed.

(** C5. For a response with [n] results, [0 < n <= 5], the text returned
    is the header, then the blocks of the first three results at most,
    numbered 1, 2, 3 and separated by a blank line, then a blank line and
    the line that reports [n], the number of results of the provider and
    not the number of blocks. *)
Theorem display_cap (args : JsValue) (q : JsString) (st : State)
    (results : list SearchResult) :
  destructure_query args = Returns (Some (JString q)) ->
  trim q <> [] ->
  tvly_search (length (searches st)) q = Returns (Some results) ->
  0 < length results <= 5 ->
  fst (webSearch args st)
    = Returns (lit "Search Results for " ++ dq ++ q ++ dq ++ lit ":" ++ nl ++ nl
               ++ match results with
                  | [] => []
                  | [r1] => spec_block 1 r1
                  | [r1; r2] => spec_block 1 r1 ++ nl ++ nl ++ spec_block 2 r2
                  | r1 :: r2 :: r3 :: _ =>
                      spec_block 1 r1 ++ nl ++ nl ++ spec_block 2 r2
                        ++ nl ++ nl ++ spec_block 3 r3
                  end
               ++ nl ++ nl ++ lit "Total results found: "
               ++ [N.of_nat (48 + length results)]).
Proof.
  intros Hq Hnb Htv [Hpos Hmax].
  rewrite (webSearch_string args q st Hq). cbv zeta.
  destruct (trim q) as [|c t]; [congruence|].
  rewrite Htv.
  destruct results as [|r1 [|r2 [|r3 [|r4 [|r5 [|r6 more]]]]]];
    cbn [length] in Hpos, Hmax; try lia;
    cbn [fst]; unfold search_results_text, formattedResults;
    cbn [firstn map_indexed join];
    rewrite ?(format_result_spec_block _ 0), ?(format_result_spec_block _ 1),
      ?(format_result_spec_block _ 2) by lia;
    cbn [Nat.add]; rewrite <- ?app_assoc; reflexivity.
Qed.

(** C6. On a query that is empty or made of white space only,
    [webSearch] returns the text [Error: No search query provided] and
    sends nothing to the search provider. *)
Theorem blank_query_rejected (args : JsValue) (q : JsString) (st : State) :
  destructure_query args = Returns (Some (JString q)) ->
  blank q ->
  fst (webSearch args st) = Returns (lit "Error: No search query provided")
  /\ searches (snd (webSearch args st)) = searches st.
Proof.
  intros Hq Hb.
  rewrite (webSearch_string args q st Hq). cbv zeta.
  rewrite (trim_blank q Hb). split; [reflexivity|].
  cbn [snd]. rewrite searches_record. apply app_nil_r.
Qed.

(** C7. On a string query [webSearch] returns a text whatever the search
    provider does, and no exception leaves it; when the provider call
    throws, the text is the apology that quotes the query. *)
Theorem webSearch_total (args : JsValue) (q : JsString) (st : State) :
  destructure_query args = Returns (Some (JString q)) ->
  (exists text : JsString, fst (webSearch args st) = Returns text)
  /\ (forall e : Exn,
        trim q <> [] ->
        tvly_search (length (searches st)) q = Throws e ->
        fst (webSearch args st)
          = Returns (lit "Error occurred while searching for " ++ dq ++ q ++ dq
                     ++ lit ". Please try again.")).
Proof.
  intros Hq.
  rewrite (webSearch_string args q st Hq). cbv zeta.
  destruct (trim q) as [|c t].
  - split; [now eexists|]. intros e Hne. congruence.
  - split.
    + destruct (tvly_search (length (searches st)) q) as [[[|r rs]|]|e];
        now eexists.
    + intros e _ He. now rewrite He.
Qed.

(** ** Rules for effectful code *)

Lemma hoare_ret {A : Type} (P : State -> Prop) (a : A) : hoare P (ret a) P.
Proof. intros st H. exact H. Qed.

Lemma hoare_throw {A : Type} (P : State -> Prop) (e : Exn) : hoare P (@throw A e) P.
Proof. intros st H. exact H. Qed.

Lemma hoare_lift {A : Type} (P : State -> Prop) (o : Outcome A) : hoare P (lift o) P.
Proof. intros st H. exact H. Qed.

Lemma hoare_bind {A B : Type} (P Q R : State -> Prop) (c : Eff A) (k : A -> Eff B) :
  hoare P c Q -> (forall a, hoare Q (k a) R) -> (forall st, Q st -> R st) ->
  hoare P (bind c k) R.
Proof.
  intros Hc Hk Hthrow st HP. unfold bind.
  specialize (Hc st HP). destruct (c st) as [[a|e] st']; simpl in *.
  - now apply Hk.
  - now apply Hthrow.
Qed.

Lemma hoare_seq {A B : Type} (P : State -> Prop) (c : Eff A) (k : A -> Eff B) :
  hoare P c P -> (forall a, hoare P (k a) P) -> hoare P (bind c k) P.
Proof. intros Hc Hk. apply (hoare_bind P P P c k Hc Hk). auto. Qed.

Lemma hoare_try_catch {A : Type} (P Q R : State -> Prop) (body : Eff A)
    (handler : Exn -> Eff A) :
  hoare P body Q -> (forall e, hoare Q (handler e) R) -> (forall st, Q st -> R st) ->
  hoare P (try_catch body handler) R.
Proof.
  intros Hb Hh Hret st HP. unfold try_catch.
  specialize (Hb st HP). destruct (body st) as [[a|e] st']; simpl in *.
  - now apply Hret.
  - now apply Hh.
Qed.

Lemma hoare_weaken {A : Type} (P P' Q Q' : State -> Prop) (c : Eff A) :
  hoare P' c Q' -> (forall st, P st -> P' st) -> (forall st, Q' st -> Q st) ->
  hoare P c Q.
Proof. intros H HP HQ st Hst. apply HQ, H, HP, Hst. Qed.

Lemma call_stable_search (P : State -> Prop) : call_stable P -> search_stable P.
Proof. intros H c st _. apply H. Qed.

(** ** What the tool phase and the loop preserve *)

Lemma webSearch_keeps (P : State -> Prop) (args : JsValue) :
  search_stable P -> hoare P (webSearch args) P.
Proof.
  intros HP. unfold webSearch.
  apply hoare_seq; [intros st; now apply HP|intros _].
  apply hoare_seq; [apply hoare_lift|intros query].
  destruct (falsy query); [apply hoare_ret|].
  destruct query as [[| | |q| |]|]; try apply hoare_throw.
  destruct (trim q); [apply hoare_ret|].
  apply (hoare_try_catch P P P); auto.
  - apply hoare_seq; [intros st; now apply HP|].
    intros [[|r rs]|]; apply hoare_ret.
  - intros e. apply hoare_ret.
Qed.

Lemma handle_tool_call_keeps (P : State -> Prop) (toolCall : ToolCall) :
  search_stable P -> push_stable P -> hoare P (handle_tool_call toolCall) P.
Proof.
  intros Hs Hp. unfold handle_tool_call.
  destruct (recognized toolCall); [|apply hoare_ret].
  apply (hoare_try_catch P P P); auto.
  - apply hoare_seq; [apply hoare_lift|intros args].
    apply hoare_seq; [now apply webSearch_keeps|intros text].
    apply hoare_seq; intros; intros st; apply Hp.
  - intros e st. apply Hp.
Qed.

Lemma for_each_tool_call_keeps (P : State -> Prop) (toolCalls : list ToolCall) :
  search_stable P -> push_stable P -> hoare P (for_each_tool_call toolCalls) P.
Proof.
  intros Hs Hp. induction toolCalls as [|tc rest IH]; simpl.
  - apply hoare_ret.
  - apply hoare_seq; [now apply handle_tool_call_keeps|intros _; exact IH].
Qed.

Lemma create_completion_keeps (P : State -> Prop) (tools : bool) :
  call_stable P -> hoare P (create_completion tools) P.
Proof. intros HP st H. apply HP, H. Qed.

Lemma agent_loop_keeps (P : State -> Prop) (fuel : nat) :
  call_stable P -> push_stable P -> hoare P (agent_loop fuel) P.
Proof.
  intros Hc Hp. induction fuel as [|fuel IH]; cbn [agent_loop].
  - apply hoare_ret.
  - apply hoare_seq; [now apply create_completion_keeps|intros [|message rest]].
    + apply hoare_ret.
    + destruct (truthy (msg_content message)).
      * apply hoare_seq; [intros st; apply Hp|intros _; apply hoare_ret].
      * destruct (msg_tool_calls message) as [[|tc tcs]|]; try apply hoare_ret.
        apply hoare_seq.
        { apply for_each_tool_call_keeps; auto using call_stable_search. }
        intros _. apply hoare_seq; [now apply create_completion_keeps|].
        intros [|finalMessage rest']; [exact IH|].
        destruct (truthy (msg_content finalMessage)); [|exact IH].
        apply hoare_seq; [intros st; apply Hp|intros _; apply hoare_ret].
Qed.

(** ** The system instruction stays first *)

Lemma starts_with_system_app (t : list Message) (m : Message) :
  starts_with_system t -> starts_with_system (t ++ [m]).
Proof. unfold starts_with_system. destruct t; simpl; [discriminate|auto]. Qed.

Lemma transcript_ok_now (n : nat) (st : State) :
  transcript_ok n st -> starts_with_system (messages st).
Proof.
  intros (Hh & Hin & _). rewrite Forall_forall in Hh. now apply Hh.
Qed.

Lemma transcript_ok_set (n k : nat) (ms : list Message) (st : State) :
  transcript_ok n st -> starts_with_system ms -> k <= length ms ->
  transcript_ok k (snd (set_messages ms st)).
Proof.
  intros (Hh & Hin & Hn) Hms Hk. unfold transcript_ok. simpl.
  repeat split.
  - apply Forall_app. split; [exact Hh|]. constructor; [exact Hms|constructor].
  - apply in_or_app. right. now left.
  - exact Hk.
Qed.

Lemma transcript_ok_push (n : nat) (m : Message) (st : State) :
  transcript_ok n st -> transcript_ok (S n) (snd (push m st)).
Proof.
  intros H. unfold push. apply (transcript_ok_set n); [exact H| |].
  - apply starts_with_system_app. exact (transcript_ok_now n st H).
  - destruct H as (_ & _ & Hn). rewrite length_app. simpl. lia.
Qed.

Lemma transcript_ok_le (n k : nat) (st : State) :
  k <= n -> transcript_ok n st -> transcript_ok k st.
Proof. intros Hk (Hh & Hm & Hn). repeat split; auto. lia. Qed.

Lemma transcript_ok_push_stable (n : nat) : push_stable (transcript_ok n).
Proof.
  intros m st H. apply (transcript_ok_le (S n)); [lia|].
  now apply transcript_ok_push.
Qed.

Lemma transcript_ok_call_stable (n : nat) : call_stable (transcript_ok n).
Proof. intros c st H. exact H. Qed.

(** [pop] on a transcript of two messages at least leaves the first. *)
Lemma transcript_ok_pop (st : State) :
  transcript_ok 2 st -> transcript_ok 1 (snd (pop st)).
Proof.
  intros H. unfold pop. apply (transcript_ok_set 2); [exact H| |].
  - pose proof (transcript_ok_now 2 st H) as Hm. destruct H as (_ & _ & Hn).
    unfold starts_with_system in *.
    destruct (messages st) as [|m0 [|m1 rest]]; simpl in *; try lia. exact Hm.
  - destruct H as (_ & _ & Hn).
    destruct (messages st) as [|m0 [|m1 rest]]; simpl in *; lia.
Qed.

Lemma on_error_keeps (question : JsString) (error : Exn) :
  hoare (transcript_ok 2) (on_error question error) (transcript_ok 1).
Proof.
  unfold on_error. destruct (is_tool_use_failed error).
  - apply (hoare_bind _ (transcript_ok 1) _).
    + intros st. apply transcript_ok_pop.
    + intros _. apply hoare_seq; [intros st; apply transcript_ok_push_stable|].
      intros _. apply hoare_seq.
      * apply create_completion_keeps, transcript_ok_call_stable.
      * intros [|fallbackMessage rest]; [apply hoare_ret|].
        destruct (truthy (msg_content fallbackMessage)); [|apply hoare_ret].
        intros st. apply transcript_ok_push_stable.
    + auto.
  - intros st. apply transcript_ok_le. lia.
Qed.

Lemma turn_keeps (fuel : nat) (question : JsString) :
  hoare (transcript_ok 1) (turn fuel question) (transcript_ok 1).
Proof.
  unfold turn.
  apply (hoare_bind _ (transcript_ok 2) _).
  - intros st. apply transcript_ok_push.
  - intros _. apply (hoare_try_catch _ (transcript_ok 2) _).
    + apply hoare_seq; [|intros flow; apply hoare_ret].
      apply agent_loop_keeps;
        [apply transcript_ok_call_stable|apply transcript_ok_push_stable].
    + intros e. apply (hoare_bind _ (transcript_ok 1) _);
        [apply on_error_keeps|intros _; apply hoare_ret|auto].
    + intros st. apply transcript_ok_le. lia.
  - intros st. apply transcript_ok_le. lia.
Qed.

Lemma main_loop_keeps (fuel : nat) (lines : list JsString) :
  hoare (transcript_ok 1) (main_loop fuel lines) (transcript_ok 1).
Proof.
  induction lines as [|question rest IH]; simpl.
  - apply hoare_ret.
  - destruct (str_eqb (toLowerCase question) (lit "bye")); [apply hoare_ret|].
    apply hoare_seq; [apply turn_keeps|].
    intros [|]; [exact IH|apply hoare_ret].
Qed.

Lemma initial_state_ok : transcript_ok 1 initial_state.
Proof.
  unfold transcript_ok, starts_with_system. simpl.
  repeat split; auto.
Qed.

(** C9. Whatever the user types and whatever the services answer, every
    value the transcript has taken during the session, the one it has at
    the end included, starts with the fixed system instruction: no push and
    no pop, the one of the fallback path included, removes or moves it. *)
Theorem system_message_stays_first (fuel : nat) (lines : list JsString) :
  Forall (fun transcript => hd_error transcript = Some system_message)
    (history (snd (main_loop fuel lines initial_state)))
  /\ In (messages (snd (main_loop fuel lines initial_state)))
       (history (snd (main_loop fuel lines initial_state))).
Proof.
  destruct (main_loop_keeps fuel lines initial_state initial_state_ok) as (Hh & Hin & _).
  split; [exact Hh|exact Hin].
Qed.

(** ** One tool call *)

Lemma webSearch_messages (args : JsValue) (st : State) :
  messages (snd (webSearch args st)) = messages st.
Proof.
  apply (webSearch_keeps (fun s => messages s = messages st) args); [|reflexivity].
  intros c s _ H. exact H.
Qed.

Lemma handle_tool_call_other (toolCall : ToolCall) (st : State) :
  recognized toolCall = false -> handle_tool_call toolCall st = (Returns tt, st).
Proof. intros H. unfold handle_tool_call. now rewrite H. Qed.

Lemma handle_tool_call_unparsed (toolCall : ToolCall) (st : State) :
  recognized toolCall = true ->
  JSON_parse (fn_arguments toolCall) = None ->
  handle_tool_call toolCall st
    = push (Tool (tc_id toolCall) invalid_parameters_text) st.
Proof.
  intros Hr Hp. unfold handle_tool_call, try_catch, bind, lift.
  now rewrite Hr, Hp.
Qed.

Lemma handle_tool_call_parsed (toolCall : ToolCall) (args : JsValue) (st : State) :
  recognized toolCall = true ->
  JSON_parse (fn_arguments toolCall) = Some args ->
  handle_tool_call toolCall st
    = match webSearch args st with
      | (Returns toolResult, st1) =>
          push (Tool (tc_id toolCall) toolResult)
            (snd (push (Assistant None (Some [toolCall])) st1))
      | (Throws _, st1) =>
          push (Tool (tc_id toolCall) invalid_parameters_text) st1
      end.
Proof.
  intros Hr Hp. unfold handle_tool_call, try_catch, bind, lift.
  rewrite Hr, Hp.
  destruct (webSearch args st) as [[toolResult|e] st1]; reflexivity.
Qed.

(** Every tool call returns normally and leaves one segment. *)
Lemma handle_tool_call_segment (toolCall : ToolCall) (st : State) :
  exists seg : list Message,
    segment_of toolCall seg
    /\ fst (handle_tool_call toolCall st) = Returns tt
    /\ messages (snd (handle_tool_call toolCall st)) = messages st ++ seg.
Proof.
  destruct (recognized toolCall) eqn:Hr.
  - destruct (JSON_parse (fn_arguments toolCall)) as [args|] eqn:Hp.
    + rewrite (handle_tool_call_parsed toolCall args st Hr Hp).
      pose proof (webSearch_messages args st) as Hm.
      destruct (webSearch args st) as [[toolResult|e] st1]; simpl in *.
      * exists [Assistant None (Some [toolCall]); Tool (tc_id toolCall) toolResult].
        split; [now constructor|]. split; [reflexivity|].
        now rewrite Hm, <- app_assoc.
      * exists [Tool (tc_id toolCall) invalid_parameters_text].
        split; [now constructor|]. split; [reflexivity|]. now rewrite Hm.
    + rewrite (handle_tool_call_unparsed toolCall st Hr Hp).
      exists [Tool (tc_id toolCall) invalid_parameters_text].
      split; [now constructor|]. split; reflexivity.
  - rewrite (handle_tool_call_other toolCall st Hr).
    exists []. split; [now constructor|]. split; [reflexivity|].
    simpl. now rewrite app_nil_r.
Qed.

(** C8 (as amended). A requested call whose function name is not
    [webSearch] is ignored: the state is left as it is, so no message is
    appended and the executor is not entered; a call named [webSearch] is
    processed and leaves a tool message with its id at the end of the
    transcript. *)
Theorem only_webSearch_is_handled (toolCall : ToolCall) (st : State) :
  (fn_name toolCall <> lit "webSearch" ->
     handle_tool_call toolCall st = (Returns tt, st))
  /\ (fn_name toolCall = lit "webSearch" ->
        exists (pre : list Message) (text : JsString),
          appended st (snd (handle_tool_call toolCall st))
            = pre ++ [Tool (tc_id toolCall) text]).
Proof.
  split; intros Hn.
  - apply handle_tool_call_other. unfold recognized.
    destruct (str_eqb (fn_name toolCall) (lit "webSearch")) eqn:E; [|reflexivity].
    apply str_eqb_eq in E. contradiction.
  - assert (Hr : recognized toolCall = true) by (now apply str_eqb_eq).
    destruct (handle_tool_call_segment toolCall st) as (seg & Hseg & _ & Hm).
    rewrite (appended_app _ _ seg Hm).
    inversion Hseg as [Hf|Ht|text Ht]; subst.
    + congruence.
    + now exists [], invalid_parameters_text.
    + now exists [Assistant None (Some [toolCall])], text.
Qed.

(** C10. When the arguments of a recognized call do not parse, or the
    executor throws on them, what is appended is one tool message with the
    text [Error: Invalid search parameters] whose [tool_call_id] is the id
    of that call. *)
Theorem error_result_correlated (toolCall : ToolCall) (st : State) :
  fn_name toolCall = lit "webSearch" ->
  (JSON_parse (fn_arguments toolCall) = None
   \/ exists (args : JsValue) (e : Exn),
        JSON_parse (fn_arguments toolCall) = Some args
        /\ fst (webSearch args st) = Throws e) ->
  appended st (snd (handle_tool_call toolCall st))
    = [Tool (tc_id toolCall) (lit "Error: Invalid search parameters")].
Proof.
  intros Hn Hfail.
  assert (Hr : recognized toolCall = true) by (now apply str_eqb_eq).
  apply appended_app.
  destruct Hfail as [Hp|(args & e & Hp & He)].
  - now rewrite (handle_tool_call_unparsed toolCall st Hr Hp).
  - rewrite (handle_tool_call_parsed toolCall args st Hr Hp).
    pose proof (webSearch_messages args st) as Hm.
    destruct (webSearch args st) as [[toolResult|e'] st1]; simpl in *.
    + discriminate.
    + now rewrite Hm.
Qed.

(** ** The tool phase *)

Lemma for_each_tool_call_segments (toolCalls : list ToolCall) (st : State) :
  exists segs : list (list Message),
    Forall2 segment_of toolCalls segs
    /\ fst (for_each_tool_call toolCalls st) = Returns tt
    /\ messages (snd (for_each_tool_call toolCalls st)) = messages st ++ concat segs.
Proof.
  revert st. induction toolCalls as [|tc rest IH]; intros st.
  - exists []. split; [constructor|]. split; [reflexivity|].
    simpl. now rewrite app_nil_r.
  - destruct (handle_tool_call_segment tc st) as (seg & Hseg & Hret & Hm).
    cbn [for_each_tool_call]. unfold bind.
    destruct (handle_tool_call tc st) as [[[]|e] st1]; simpl in Hret, Hm;
      [|discriminate].
    destruct (IH st1) as (segs & Hsegs & Hret' & Hm').
    exists (seg :: segs). split; [now constructor|]. split; [exact Hret'|].
    rewrite Hm', Hm. simpl. now rewrite app_assoc.
Qed.

Lemma segments_tool_count (toolCalls : list ToolCall) (segs : list (list Message)) :
  Forall2 segment_of toolCalls segs ->
  length (filter is_tool_message (concat segs)) = length (filter recognized toolCalls).
Proof.
  induction 1 as [|tc seg tcs segs Hseg _ IH]; [reflexivity|].
  simpl. rewrite filter_app, length_app, IH.
  inversion Hseg as [Hr|Hr|text Hr]; subst; rewrite Hr; reflexivity.
Qed.

Lemma segments_preceded (toolCalls : list ToolCall) (segs : list (list Message)) :
  Forall2 segment_of toolCalls segs ->
  forall (pre : list Message) (id text : JsString) (post : list Message),
    concat segs = pre ++ Tool id text :: post ->
    text = invalid_parameters_text
    \/ exists (tc : ToolCall) (pre' : list Message),
         In tc toolCalls /\ tc_id tc = id
         /\ pre = pre' ++ [Assistant None (Some [tc])].
Proof.
  induction 1 as [|tc seg tcs segs Hseg _ IH]; intros pre id text post Heq.
  - destruct pre; discriminate.
  - assert (Hrest : forall pre0,
              concat segs = pre0 ++ Tool id text :: post ->
              forall front, pre = front ++ pre0 ->
              text = invalid_parameters_text
              \/ exists (tc' : ToolCall) (pre' : list Message),
                   In tc' (tc :: tcs) /\ tc_id tc' = id
                   /\ pre = pre' ++ [Assistant None (Some [tc'])]).
    { intros pre0 H0 front ->.
      destruct (IH pre0 id text post H0) as [->|(tc' & pre' & Hin & Hid & ->)];
        [now left|right].
      exists tc', (front ++ pre'). split; [now right|]. split; [exact Hid|].
      now rewrite app_assoc. }
    simpl in Heq. inversion Hseg as [Hr|Hr|text0 Hr]; subst seg.
    + apply (Hrest pre Heq []). reflexivity.
    + destruct pre as [|m pre0]; simpl in Heq.
      * injection Heq as _ <- _. now left.
      * injection Heq as <- Heq.
        apply (Hrest pre0 Heq [Tool (tc_id tc) invalid_parameters_text]). reflexivity.
    + destruct pre as [|m [|m' pre0]]; simpl in Heq.
      * discriminate.
      * injection Heq as <- <- <- _. right.
        exists tc, []. split; [now left|]. split; reflexivity.
      * injection Heq as <- <- Heq.
        apply (Hrest pre0 Heq [Assistant None (Some [tc]); Tool (tc_id tc) text0]).
        reflexivity.
Qed.

(** C2 (as amended). The tool phase appends exactly one tool message for
    each requested call named [webSearch], whether its arguments parse or
    not; every tool message appended either carries the text
    [Error: Invalid search parameters] or comes right after the assistant
    message that records its call; and when the arguments of such a call
    do not parse, that error message is what is appended while nothing is
    recorded as called: the executor is not entered. *)
Theorem tool_phase_transcript (toolCalls : list ToolCall) (st : State) :
  fst (for_each_tool_call toolCalls st) = Returns tt
  /\ messages (snd (for_each_tool_call toolCalls st))
       = messages st ++ appended st (snd (for_each_tool_call toolCalls st))
  /\ length (filter is_tool_message
               (appended st (snd (for_each_tool_call toolCalls st))))
       = length (filter (fun tc => str_eqb (fn_name tc) (lit "webSearch")) toolCalls)
  /\ (forall (pre : list Message) (id text : JsString) (post : list Message),
        appended st (snd (for_each_tool_call toolCalls st)) = pre ++ Tool id text :: post ->
        text = lit "Error: Invalid search parameters"
        \/ exists (tc : ToolCall) (pre' : list Message),
             In tc toolCalls /\ tc_id tc = id
             /\ pre = pre' ++ [Assistant None (Some [tc])])
  /\ (forall (tc : ToolCall) (st0 : State),
        fn_name tc = lit "webSearch" ->
        JSON_parse (fn_arguments tc) = None ->
        appended st0 (snd (handle_tool_call tc st0))
          = [Tool (tc_id tc) (lit "Error: Invalid search parameters")]
        /\ calls (snd (handle_tool_call tc st0)) = calls st0).
Proof.
  destruct (for_each_tool_call_segments toolCalls st) as (segs & Hsegs & Hret & Hm).
  rewrite (appended_app _ _ (concat segs) Hm).
  split; [exact Hret|]. split; [exact Hm|]. split; [|split].
  - apply (segments_tool_count toolCalls segs Hsegs).
  - apply (segments_preceded toolCalls segs Hsegs).
  - intros tc st0 Hn Hp.
    assert (Hr : recognized tc = true) by (now apply str_eqb_eq).
    rewrite (handle_tool_call_unparsed tc st0 Hr Hp).
    split; [now apply appended_app|reflexivity].
Qed.

(** ** Completion calls of a turn *)

Lemma calls_within_le (k n : nat) (st : State) :
  k <= n -> calls_within k st -> calls_within n st.
Proof. unfold calls_within. lia. Qed.

Lemma calls_within_set (k : nat) (ms : list Message) (st : State) :
  calls_within k st -> calls_within k (snd (set_messages ms st)).
Proof. intros H. exact H. Qed.

Lemma calls_within_push_stable (k : nat) : push_stable (calls_within k).
Proof. intros m st H. exact H. Qed.

Lemma calls_within_search_stable (k : nat) : search_stable (calls_within k).
Proof.
  intros c st Hc H. unfold calls_within. rewrite completions_record.
  simpl. rewrite Hc, app_nil_r. exact H.
Qed.

Lemma create_completion_counts (k : nat) (tools : bool) :
  hoare (calls_within k) (create_completion tools) (calls_within (S k)).
Proof.
  intros st H. unfold calls_within in *.
  change (snd (create_completion tools st))
    with (snd (record_call (Completion tools) st)).
  rewrite completions_record, length_app. simpl. lia.
Qed.

(** [fuel] iterations of the inner loop issue two completion calls each
    at most. *)
Lemma agent_loop_counts (fuel k : nat) :
  hoare (calls_within k) (agent_loop fuel) (calls_within (k + 2 * fuel)).
Proof.
  revert k. induction fuel as [|fuel IH]; intros k; cbn [agent_loop].
  - intros st H. apply (calls_within_le k); [lia|exact H].
  - assert (Hup : forall j st, j <= k + 2 * S fuel ->
                    calls_within j st -> calls_within (k + 2 * S fuel) st).
    { intros j st Hj. now apply calls_within_le. }
    assert (Hret : forall (j : nat) (flow : Flow), j <= k + 2 * S fuel ->
                     hoare (calls_within j) (ret flow) (calls_within (k + 2 * S fuel))).
    { intros j flow Hj st H. apply (Hup j); [exact Hj|exact H]. }
    assert (Hpush : forall (j : nat) (m : Message), j <= k + 2 * S fuel ->
                      hoare (calls_within j) (push m ;; ret Break)
                        (calls_within (k + 2 * S fuel))).
    { intros j m Hj. apply (hoare_bind _ (calls_within j) _).
      - intros st. apply calls_within_push_stable.
      - intros _. now apply Hret.
      - intros st. now apply Hup. }
    assert (Hrec : hoare (calls_within (S (S k))) (agent_loop fuel)
                     (calls_within (k + 2 * S fuel))).
    { apply (hoare_weaken _ _ _ _ _ (IH (S (S k)))); [auto|].
      intros st. apply calls_within_le. lia. }
    apply (hoare_bind _ (calls_within (S k)) _).
    + apply create_completion_counts.
    + intros [|message rest]; [apply Hret; lia|].
      destruct (truthy (msg_content message)); [apply Hpush; lia|].
      destruct (msg_tool_calls message) as [[|tc tcs]|]; try (apply Hret; lia).
      apply (hoare_bind _ (calls_within (S k)) _).
      * apply for_each_tool_call_keeps;
          [apply calls_within_search_stable|apply calls_within_push_stable].
      * intros _. apply (hoare_bind _ (calls_within (S (S k))) _).
        -- apply create_completion_counts.
        -- intros [|finalMessage rest']; [exact Hrec|].
           destruct (truthy (msg_content finalMessage)); [apply Hpush; lia|exact Hrec].
        -- intros st. apply Hup. lia.
      * intros st. apply Hup. lia.
    + intros st. apply Hup. lia.
Qed.

(** The handler of the outer [catch] issues one completion call at most. *)
Lemma on_error_counts (k : nat) (question : JsString) (error : Exn) :
  hoare (calls_within k) (on_error question error) (calls_within (S k)).
Proof.
  unfold on_error. destruct (is_tool_use_failed error).
  - apply (hoare_bind _ (calls_within k) _).
    + intros st. apply calls_within_set.
    + intros _. apply (hoare_bind _ (calls_within k) _).
      * intros st. apply calls_within_push_stable.
      * intros _. apply (hoare_bind _ (calls_within (S k)) _).
        -- apply create_completion_counts.
        -- intros [|fallbackMessage rest]; [apply hoare_ret|].
           destruct (truthy (msg_content fallbackMessage)); [|apply hoare_ret].
           intros st. apply calls_within_push_stable.
        -- auto.
      * intros st. apply calls_within_le. lia.
    + intros st. apply calls_within_le. lia.
  - intros st. apply calls_within_le. lia.
Qed.

Lemma turn_counts (fuel k : nat) (question : JsString) :
  hoare (calls_within k) (turn fuel question) (calls_within (k + 2 * fuel + 1)).
Proof.
  unfold turn.
  apply (hoare_bind _ (calls_within k) _).
  - intros st. apply calls_within_push_stable.
  - intros _. apply (hoare_try_catch _ (calls_within (k + 2 * fuel)) _).
    + apply (hoare_bind _ (calls_within (k + 2 * fuel)) _).
      * apply agent_loop_counts.
      * intros flow. apply hoare_ret.
      * auto.
    + intros e. apply (hoare_bind _ (calls_within (S (k + 2 * fuel))) _).
      * apply on_error_counts.
      * intros _ st. apply calls_within_le. lia.
      * intros st. apply calls_within_le. lia.
    + intros st. apply calls_within_le. lia.
  - intros st. apply calls_within_le. lia.
Qed.

(** Once the inner loop has been left, a larger bound on its iterations
    changes nothing. *)
Lemma agent_loop_more (fuel more : nat) (st : State) :
  fst (agent_loop fuel st) <> Returns Spinning ->
  agent_loop (fuel + more) st = agent_loop fuel st.
Proof.
  revert st. induction fuel as [|fuel IH]; intros st H.
  - exfalso. apply H. reflexivity.
  - cbn [agent_loop Nat.add] in *. unfold bind in *.
    destruct (create_completion true st) as [[[|message rest]|e] st1];
      try reflexivity.
    destruct (truthy (msg_content message)); [reflexivity|].
    destruct (msg_tool_calls message) as [[|tc tcs]|]; try reflexivity.
    destruct (for_each_tool_call (tc :: tcs) st1) as [[[]|e] st2]; [|reflexivity].
    destruct (create_completion false st2) as [[[|finalMessage rest']|e] st3];
      try reflexivity.
    + now apply IH.
    + destruct (truthy (msg_content finalMessage)); [reflexivity|now apply IH].
Qed.

Lemma turn_more (fuel more : nat) (question : JsString) (st : State) :
  fst (turn fuel question st) <> Returns InTurn ->
  turn (fuel + more) question st = turn fuel question st.
Proof.
  unfold turn, bind, try_catch. intros H.
  destruct (push (User question) st) as [[[]|e0] st1]; [|reflexivity].
  destruct (agent_loop fuel st1) as [[[|]|e] st2] eqn:E.
  - rewrite agent_loop_more; rewrite E; [reflexivity|discriminate].
  - exfalso. apply H. reflexivity.
  - rewrite agent_loop_more; rewrite E; [reflexivity|discriminate].
Qed.

(** One iteration of the inner loop in which the first pass asks for tool
    calls: what the second pass returns decides between leaving the loop
    and going round. *)
Lemma agent_loop_second_pass (fuel : nat) (st : State) (message : ChoiceMessage)
    (rest : list ChoiceMessage) (tc : ToolCall) (tcs : list ToolCall) :
  groq_create (length (completions st)) (messages st) true = Returns (message :: rest) ->
  truthy (msg_content message) = false ->
  msg_tool_calls message = Some (tc :: tcs) ->
  let st2 := snd (for_each_tool_call (tc :: tcs) (snd (record_call (Completion true) st))) in
  let st3 := snd (record_call (Completion false) st2) in
  agent_loop (S fuel) st
    = match groq_create (length (completions st2)) (messages st2) false with
      | Returns (finalMessage :: _) =>
          if truthy (msg_content finalMessage)
          then (Returns Break, snd (push (Assistant (msg_content finalMessage) None) st3))
          else agent_loop fuel st3
      | Returns [] => agent_loop fuel st3
      | Throws e => (Throws e, st3)
      end.
Proof.
  intros Hfirst Hcontent Hcalls. cbv zeta.
  cbn [agent_loop]. unfold bind at 1. unfold create_completion at 1.
  rewrite Hfirst, Hcontent, Hcalls. unfold bind at 1.
  destruct (for_each_tool_call_segments (tc :: tcs) (snd (record_call (Completion true) st)))
    as (segs & _ & Hret & _).
  destruct (for_each_tool_call (tc :: tcs) (snd (record_call (Completion true) st)))
    as [[[]|e] st2]; simpl in Hret; [|discriminate].
  cbn [snd]. unfold bind at 1. unfold create_completion at 1.
  destruct (groq_create (length (completions st2)) (messages st2) false)
    as [[|finalMessage rest']|e]; try reflexivity.
  destruct (truthy (msg_content finalMessage)); reflexivity.
Qed.

(** C1 (as amended). In an iteration of the inner loop whose first pass
    asks for tool calls, the loop is left after the second pass when that
    call returns content or throws, and goes back to a first pass when it
    returns none. A turn whose inner loop is left within [k] iterations
    ends the same way under any larger bound on the iterations, and issues
    at most [2 * k + 1] completion calls: a first pass and a second pass
    for each iteration, and the fallback pass. For [k = 1] that is three
    calls. *)
Theorem turn_completion_calls :
  (forall (k : nat) (question : JsString) (st : State),
     fst (turn k question st) <> Returns InTurn ->
     (forall more : nat, turn (k + more) question st = turn k question st)
     /\ length (completions (snd (turn k question st)))
          <= length (completions st) + (2 * k + 1))
  /\ (forall (fuel : nat) (st : State) (message : ChoiceMessage)
        (rest : list ChoiceMessage) (tc : ToolCall) (tcs : list ToolCall),
        groq_create (length (completions st)) (messages st) true = Returns (message :: rest) ->
        truthy (msg_content message) = false ->
        msg_tool_calls message = Some (tc :: tcs) ->
        let st2 := snd (for_each_tool_call (tc :: tcs)
                          (snd (record_call (Completion true) st))) in
        let st3 := snd (record_call (Completion false) st2) in
        agent_loop (S fuel) st
          = match groq_create (length (completions st2)) (messages st2) false with
            | Returns (finalMessage :: _) =>
                if truthy (msg_content finalMessage)
                then (Returns Break,
                      snd (push (Assistant (msg_content finalMessage) None) st3))
                else agent_loop fuel st3
            | Returns [] => agent_loop fuel st3
            | Throws e => (Throws e, st3)
            end).
Proof.
  split.
  - intros k question st H. split.
    + intros more. now apply turn_more.
    + pose proof (turn_counts k (length (completions st)) question st) as Hc.
      unfold calls_within in Hc. specialize (Hc (le_n _)). lia.
  - exact agent_loop_second_pass.
Qed.

(** ** The fallback pass *)

Lemma removelast_snoc (ms : list Message) (m : Message) : removelast (ms ++ [m]) = ms.
Proof. apply removelast_last. Qed.

(** When the first completion call of a turn throws, the handler of the
    outer [catch] runs on the transcript that call saw. *)
Lemma turn_first_pass_throws (fuel : nat) (question : JsString) (st : State) (e : Exn) :
  groq_create (length (completions st)) (messages st ++ [User question]) true = Throws e ->
  turn (S fuel) question st
    = (on_error question e ;; ret Settled)
        (snd (record_call (Completion true) (snd (push (User question) st)))).
Proof.
  intros Hfirst. unfold completions in Hfirst.
  unfold turn, bind, try_catch. cbn [agent_loop].
  unfold bind, create_completion, push, set_messages, completions.
  cbn [messages snd fst calls history record_call].
  rewrite Hfirst. reflexivity.
Qed.

(** When the first completion call of a turn throws the tool-use failure,
    the user message is popped and pushed again, the fallback call is
    issued without tools on the transcript the first call saw, and its
    answer, if any, is pushed. *)
Lemma fallback_on_first_pass (fuel : nat) (question : JsString) (st : State) (e : Exn) :
  groq_create (length (completions st)) (messages st ++ [User question]) true = Throws e ->
  is_tool_use_failed e = true ->
  completions (snd (turn (S fuel) question st))
    = completions st ++ [Completion true; Completion false]
  /\ messages (snd (turn (S fuel) question st))
       = messages st ++ [User question]
         ++ match groq_create (S (length (completions st)))
                    (messages st ++ [User question]) false with
            | Returns (fallbackMessage :: _) =>
                if truthy (msg_content fallbackMessage)
                then [Assistant (msg_content fallbackMessage) None] else []
            | _ => []
            end.
Proof.
  intros Hfirst Hfail.
  rewrite (turn_first_pass_throws fuel question st e Hfirst).
  unfold on_error. rewrite Hfail.
  unfold bind, pop, push, set_messages, create_completion, completions.
  cbn [messages snd fst calls history record_call].
  rewrite removelast_snoc, !filter_app. cbn [filter is_completion].
  rewrite ?length_app. cbn [length]. rewrite Nat.add_1_r.
  destruct (groq_create (S (length (filter is_completion (calls st))))
              (messages st ++ [User question]) false)
    as [[|fallbackMessage rest]|e'].
  - cbn [ret snd fst calls messages]. rewrite !filter_app. cbn [filter is_completion].
    rewrite <- !app_assoc, ?app_nil_r. split; reflexivity.
  - destruct (truthy (msg_content fallbackMessage));
      cbn [ret snd fst calls messages]; rewrite !filter_app; cbn [filter is_completion];
      rewrite <- !app_assoc, ?app_nil_r; split; reflexivity.
  - cbn [ret snd fst calls messages]. rewrite !filter_app. cbn [filter is_completion].
    rewrite <- !app_assoc, ?app_nil_r. split; reflexivity.
Qed.

(** * Further properties of the code *)

(** ** A turn, step by step *)

Lemma turn_unfold (fuel : nat) (question : JsString) (st : State) :
  turn fuel question st
    = match agent_loop fuel (snd (push (User question) st)) with
      | (Returns Break, st') => (Returns Settled, st')
      | (Returns Spinning, st') => (Returns InTurn, st')
      | (Throws e, st') => (on_error question e ;; ret Settled) st'
      end.
Proof.
  unfold turn, bind at 1, try_catch. unfold push at 1, set_messages at 1.
  unfold bind at 1. cbn [snd push set_messages].
  destruct (agent_loop fuel _) as [[[|]|e] st']; reflexivity.
Qed.

Lemma agent_loop_first_pass (fuel : nat) (st : State) :
  agent_loop (S fuel) st
    = match groq_create (length (completions st)) (messages st) true with
      | Throws e => (Throws e, snd (record_call (Completion true) st))
      | Returns [] => (Returns Break, snd (record_call (Completion true) st))
      | Returns (message :: _) =>
          if truthy (msg_content message)
          then (Returns Break,
                snd (push (Assistant (msg_content message) None)
                       (snd (record_call (Completion true) st))))
          else
            match msg_tool_calls message with
            | Some (tc :: tcs) =>
                (for_each_tool_call (tc :: tcs) ;;
                 finalChoices <- create_completion false ;;
                 match finalChoices with
                 | finalMessage :: _ =>
                     if truthy (msg_content finalMessage)
                     then push (Assistant (msg_content finalMessage) None) ;; ret Break
                     else agent_loop fuel
                 | [] => agent_loop fuel
                 end) (snd (record_call (Completion true) st))
            | _ => (Returns Break, snd (record_call (Completion true) st))
            end
      end.
Proof.
  cbn [agent_loop]. unfold bind at 1. unfold create_completion at 1.
  destruct (groq_create (length (completions st)) (messages st) true)
    as [[|message rest]|e]; try reflexivity.
  destruct (truthy (msg_content message)); [reflexivity|].
  destruct (msg_tool_calls message) as [[|tc tcs]|]; reflexivity.
Qed.

Lemma turn_plain_answer (fuel : nat) (question : JsString) (st : State)
    (message : ChoiceMessage) (rest : list ChoiceMessage) :
  groq_create (length (completions st)) (messages st ++ [User question]) true
    = Returns (message :: rest) ->
  truthy (msg_content message) = true ->
  turn (S fuel) question st
    = (Returns Settled,
       snd (push (Assistant (msg_content message) None)
              (snd (record_call (Completion true) (snd (push (User question) st)))))).
Proof.
  intros Hfirst Hcontent.
  rewrite turn_unfold, agent_loop_first_pass.
  change (groq_create (length (completions (snd (push (User question) st))))
            (messages (snd (push (User question) st))) true)
    with (groq_create (length (completions st)) (messages st ++ [User question]) true).
  now rewrite Hfirst, Hcontent.
Qed.

(** X1. When the first pass of a turn returns content, the turn settles
    after that single completion call, with the user message and one
    assistant message holding that content appended and nothing else;
    tool calls that come with the content are not looked at. *)
Theorem plain_answer_turn (fuel : nat) (question : JsString) (st : State)
    (message : ChoiceMessage) (rest : list ChoiceMessage) :
  groq_create (length (completions st)) (messages st ++ [User question]) true
    = Returns (message :: rest) ->
  truthy (msg_content message) = true ->
  fst (turn (S fuel) question st) = Returns Settled
  /\ messages (snd (turn (S fuel) question st))
       = messages st ++ [User question; Assistant (msg_content message) None]
  /\ calls (snd (turn (S fuel) question st)) = calls st ++ [Completion true].
Proof.
  intros Hfirst Hcontent.
  rewrite (turn_plain_answer fuel question st message rest Hfirst Hcontent).
  cbn [fst snd push set_messages record_call messages calls].
  split; [reflexivity|]. split; [|reflexivity].
  now rewrite <- app_assoc.
Qed.

(** X2. When the first pass returns no choice, or a message with neither
    content nor tool calls, the turn settles after that single call with
    the user message as the only message appended. *)
Theorem empty_reply_turn (fuel : nat) (question : JsString) (st : State)
    (choices : list ChoiceMessage) :
  groq_create (length (completions st)) (messages st ++ [User question]) true
    = Returns choices ->
  (choices = []
   \/ exists message rest,
        choices = message :: rest
        /\ truthy (msg_content message) = false
        /\ (msg_tool_calls message = None \/ msg_tool_calls message = Some [])) ->
  fst (turn (S fuel) question st) = Returns Settled
  /\ messages (snd (turn (S fuel) question st)) = messages st ++ [User question]
  /\ calls (snd (turn (S fuel) question st)) = calls st ++ [Completion true].
Proof.
  intros Hfirst Hempty.
  rewrite turn_unfold, agent_loop_first_pass.
  change (groq_create (length (completions (snd (push (User question) st))))
            (messages (snd (push (User question) st))) true)
    with (groq_create (length (completions st)) (messages st ++ [User question]) true).
  rewrite Hfirst.
  destruct Hempty as [->|(message & rest & -> & Hcontent & [Hnone|Hnil])].
  - repeat split.
  - rewrite Hcontent, Hnone. repeat split.
  - rewrite Hcontent, Hnil. repeat split.
Qed.

(** ** What a turn leaves of the transcript *)

Lemma removelast_after (ms : list Message) (m : Message) (rest : list Message) :
  removelast (ms ++ m :: rest) = ms
  \/ exists rest', removelast (ms ++ m :: rest) = ms ++ m :: rest'.
Proof.
  destruct rest as [|r rest].
  - left. apply removelast_last.
  - right. exists (removelast (r :: rest)).
    rewrite removelast_app by discriminate.
    change (removelast (m :: r :: rest)) with (m :: removelast (r :: rest)).
    reflexivity.
Qed.

Lemma turn_final_transcript (fuel : nat) (question : JsString) (st : State) :
  exists added : list Message,
    messages (snd (turn fuel question st)) = messages st ++ User question :: added.
Proof.
  set (P := fun s : State => exists added, messages s = messages st ++ User question :: added).
  assert (Hpush : push_stable P).
  { intros m s (added & Hs). exists (added ++ [m]). simpl. rewrite Hs.
    now rewrite <- app_assoc. }
  assert (Hcall : call_stable P).
  { intros c s H. exact H. }
  assert (Herr : forall e, hoare P (on_error question e) P).
  { intros e s (added & Hs). unfold on_error.
    destruct (is_tool_use_failed e); [|now exists added].
    unfold bind at 1. unfold pop at 1, set_messages at 1.
    unfold bind at 1. unfold push at 1, set_messages at 1. cbn [messages].
    apply (hoare_seq P).
    - now apply create_completion_keeps.
    - intros [|fallbackMessage rest]; [apply hoare_ret|].
      destruct (truthy (msg_content fallbackMessage)); [|apply hoare_ret].
      intros s'. apply Hpush.
    - unfold P. cbn [messages]. rewrite Hs.
      destruct (removelast_after (messages st) (User question) added)
        as [H|(rest' & H)]; rewrite H.
      + now exists [].
      + exists (rest' ++ [User question]). now rewrite <- app_assoc. }
  apply (hoare_bind (fun s => s = st) P P (push (User question))
           (fun _ => try_catch
              (flow <- agent_loop fuel ;;
               ret (match flow with Break => Settled | Spinning => InTurn end))
              (fun error => on_error question error ;; ret Settled))).
  - intros s ->. now exists [].
  - intros _. apply (hoare_try_catch P P P).
    + apply hoare_seq; [now apply agent_loop_keeps|intros flow; apply hoare_ret].
    + intros e. apply hoare_seq; [apply Herr|intros _; apply hoare_ret].
    + auto.
  - auto.
  - reflexivity.
Qed.

(** During a turn every value of the transcript starts with the
    transcript the turn began with. *)
Lemma turn_history_prefix (fuel : nat) (question : JsString) (st : State) :
  exists values : list (list Message),
    history (snd (turn fuel question st)) = history st ++ values
    /\ Forall (fun transcript => exists rest, transcript = messages st ++ rest) values.
Proof.
  set (I := fun (k : nat) (s : State) =>
              (exists values, history s = history st ++ values
                 /\ Forall (fun transcript => exists rest, transcript = messages st ++ rest)
                      values)
              /\ exists rest, messages s = messages st ++ rest /\ k <= length rest).
  assert (Hset : forall k s rest,
            I k s -> I (length rest) (snd (set_messages (messages st ++ rest) s))).
  { intros k s rest ((values & Hh & Hv) & _). split.
    - exists (values ++ [messages st ++ rest]). cbn [snd set_messages history].
      rewrite Hh, <- app_assoc. split; [reflexivity|].
      apply Forall_app. split; [exact Hv|]. constructor; [now exists rest|constructor].
    - exists rest. split; [reflexivity|lia]. }
  assert (Hle : forall k n s, n <= k -> I k s -> I n s).
  { intros k n s Hn (Hh & rest & Hm & Hk). split; [exact Hh|].
    exists rest. split; [exact Hm|lia]. }
  assert (Hpush : forall k m s, I k s -> I (S k) (snd (push m s))).
  { intros k m s H. pose proof H as (_ & rest & Hm & Hk).
    unfold push. rewrite Hm, <- app_assoc.
    apply (Hle (length (rest ++ [m]))); [rewrite length_app; simpl; lia|].
    now apply (Hset k). }
  assert (Hstable : push_stable (I 1)).
  { intros m s H. apply (Hle 2); [lia|]. now apply Hpush. }
  assert (Hcall : call_stable (I 1)).
  { intros c s H. exact H. }
  assert (Herr : forall e, hoare (I 1) (on_error question e) (I 0)).
  { intros e s H. unfold on_error.
    destruct (is_tool_use_failed e); [|apply (Hle 1); [lia|exact H]].
    unfold bind at 1.
    assert (Hpop : I 0 (snd (pop s))).
    { pose proof H as (_ & rest & Hm & Hk). unfold pop. rewrite Hm.
      rewrite removelast_app by (destruct rest; [simpl in Hk; lia|discriminate]).
      apply (Hle (length (removelast rest))); [lia|]. now apply (Hset 1). }
    change (pop s) with (Returns tt, snd (pop s)). cbv iota.
    unfold bind at 1.
    change (push (User question) (snd (pop s)))
      with (Returns tt, snd (push (User question) (snd (pop s)))). cbv iota.
    apply (Hle 1); [lia|].
    apply (hoare_seq (I 1)).
    - now apply create_completion_keeps.
    - intros [|fallbackMessage rest]; [apply hoare_ret|].
      destruct (truthy (msg_content fallbackMessage)); [|apply hoare_ret].
      intros s'. apply Hstable.
    - now apply Hpush. }
  assert (Hturn : hoare (fun s => s = st) (turn fuel question) (I 0)).
  { unfold turn.
    apply (hoare_bind (fun s => s = st) (I 1) (I 0)).
    - intros s ->. apply (Hpush 0). split.
      + exists []. split; [now rewrite app_nil_r|constructor].
      + exists []. split; [now rewrite app_nil_r|simpl; lia].
    - intros _. apply (hoare_try_catch (I 1) (I 1) (I 0)).
      + apply hoare_seq; [now apply agent_loop_keeps|intros flow; apply hoare_ret].
      + intros e. apply (hoare_bind _ (I 0) _);
          [apply Herr|intros _; apply hoare_ret|auto].
      + intros s Hs. apply (Hle 1); [lia|exact Hs].
    - intros s Hs. apply (Hle 1); [lia|exact Hs]. }
  destruct (Hturn st eq_refl) as (Hh & _). exact Hh.
Qed.

(** X3. However a turn ends and whatever the services answer, no message
    of an earlier turn is ever removed: every value the transcript takes
    during the turn starts with the transcript the turn began with, the
    pop of the fallback path included, and at the end of the turn that
    transcript is followed by the user message of the turn and by what the
    turn added. *)
Theorem turn_keeps_earlier_messages (fuel : nat) (question : JsString) (st : State) :
  (exists values : list (list Message),
     history (snd (turn fuel question st)) = history st ++ values
     /\ Forall (fun transcript => exists rest, transcript = messages st ++ rest) values)
  /\ exists added : list Message,
       messages (snd (turn fuel question st)) = messages st ++ User question :: added.
Proof.
  split; [apply turn_history_prefix|apply turn_final_transcript].
Qed.

(** ** Exceptions that leave the session *)

Lemma for_each_tool_call_returns (toolCalls : list ToolCall) (st : State) :
  fst (for_each_tool_call toolCalls st) = Returns tt.
Proof.
  destruct (for_each_tool_call_segments toolCalls st) as (segs & _ & H & _). exact H.
Qed.

(** An exception of the inner loop is the one that the last completion
    call made threw, on the transcript as the loop leaves it. *)
Lemma agent_loop_throw_last (fuel : nat) (st s : State) (e : Exn) :
  agent_loop fuel st = (Throws e, s) ->
  exists (earlier : list Call) (tools : bool),
    completions s = earlier ++ [Completion tools]
    /\ groq_create (length earlier) (messages s) tools = Throws e.
Proof.
  revert st. induction fuel as [|fuel IH]; intros st; [discriminate|].
  rewrite agent_loop_first_pass.
  destruct (groq_create (length (completions st)) (messages st) true)
    as [[|message rest]|e0] eqn:Hfirst; try discriminate.
  - destruct (truthy (msg_content message)); [discriminate|].
    destruct (msg_tool_calls message) as [[|tc tcs]|]; try discriminate.
    unfold bind at 1.
    pose proof (for_each_tool_call_returns (tc :: tcs)
                  (snd (record_call (Completion true) st))) as Hret.
    destruct (for_each_tool_call (tc :: tcs) (snd (record_call (Completion true) st)))
      as [[[]|e1] st2]; cbn [fst] in Hret; [|discriminate].
    unfold bind at 1. unfold create_completion at 1.
    destruct (groq_create (length (completions st2)) (messages st2) false)
      as [[|finalMessage rest']|e2] eqn:Hsecond.
    + apply IH.
    + destruct (truthy (msg_content finalMessage)); [discriminate|apply IH].
    + intros [= <- <-]. exists (completions st2), false.
      split; [|exact Hsecond].
      unfold completions. cbn [snd record_call calls]. now rewrite filter_app.
  - intros [= <- <-]. exists (completions st), true.
    split; [|exact Hfirst].
    unfold completions. cbn [snd record_call calls]. now rewrite filter_app.
Qed.

(** When the handler of the outer [catch] throws, the exception caught was
    the tool-use failure and the one thrown is that of the fallback call. *)
Lemma on_error_throws (question : JsString) (e e' : Exn) (s : State) :
  fst ((on_error question e ;; ret Settled) s) = Throws e' ->
  is_tool_use_failed e = true
  /\ groq_create (length (completions s)) (removelast (messages s) ++ [User question]) false
     = Throws e'
  /\ snd ((on_error question e ;; ret Settled) s)
     = snd (record_call (Completion false) (snd (push (User question) (snd (pop s))))).
Proof.
  unfold on_error. destruct (is_tool_use_failed e); [|discriminate].
  unfold bind, pop, push, set_messages, create_completion, ret, completions.
  cbn [fst snd messages calls history record_call].
  destruct (groq_create (length (filter is_completion (calls s)))
              (removelast (messages s) ++ [User question]) false)
    as [[|fallbackMessage rest]|e2]; try discriminate.
  - destruct (truthy (msg_content fallbackMessage)); discriminate.
  - intros [= <-]. repeat split.
Qed.

Lemma turn_throw_last (fuel : nat) (question : JsString) (st : State) (e' : Exn) :
  fst (turn fuel question st) = Throws e' ->
  exists (earlier : list Call) (tools : bool) (transcript : list Message) (e : Exn),
    completions (snd (turn fuel question st))
      = earlier ++ [Completion tools; Completion false]
    /\ In transcript (history (snd (turn fuel question st)))
    /\ groq_create (length earlier) transcript tools = Throws e
    /\ is_tool_use_failed e = true
    /\ groq_create (S (length earlier)) (messages (snd (turn fuel question st))) false
       = Throws e'.
Proof.
  rewrite turn_unfold.
  assert (Hnow : In (messages (snd (agent_loop fuel (snd (push (User question) st)))))
                   (history (snd (agent_loop fuel (snd (push (User question) st)))))).
  { apply (agent_loop_keeps (fun s => In (messages s) (history s)) fuel).
    - intros c s H. exact H.
    - intros m s _. simpl. apply in_or_app. right. now left.
    - simpl. apply in_or_app. right. now left. }
  destruct (agent_loop fuel (snd (push (User question) st))) as [[[|]|e] s] eqn:Hloop;
    try discriminate.
  cbn [fst snd] in Hnow. intros Hthrow.
  destruct (agent_loop_throw_last fuel _ s e Hloop) as (earlier & tools & Hcs & Hcall).
  destruct (on_error_throws question e e' s Hthrow) as (Hfail & Hfb & Hstate).
  rewrite Hstate.
  exists earlier, tools, (messages s), e.
  cbn [snd push pop set_messages record_call messages history calls].
  split; [|split; [|split; [exact Hcall|split; [exact Hfail|]]]].
  - unfold completions. cbn [calls]. rewrite filter_app. fold (completions s).
    rewrite Hcs. simpl. now rewrite <- app_assoc.
  - apply in_or_app. left. apply in_or_app. left. exact Hnow.
  - rewrite Hcs, length_app in Hfb. simpl in Hfb. rewrite Nat.add_1_r in Hfb.
    exact Hfb.
Qed.

Lemma session_throw_last (fuel : nat) (lines : list JsString) (st : State) (e' : Exn) :
  fst (main_loop fuel lines st) = Throws e' ->
  exists (earlier : list Call) (tools : bool) (transcript : list Message) (e : Exn),
    completions (snd (main_loop fuel lines st))
      = earlier ++ [Completion tools; Completion false]
    /\ In transcript (history (snd (main_loop fuel lines st)))
    /\ groq_create (length earlier) transcript tools = Throws e
    /\ is_tool_use_failed e = true
    /\ groq_create (S (length earlier)) (messages (snd (main_loop fuel lines st))) false
       = Throws e'.
Proof.
  revert st. induction lines as [|question rest IH]; intros st; [discriminate|].
  cbn [main_loop].
  destruct (str_eqb (toLowerCase question) (lit "bye")); [discriminate|].
  unfold bind.
  pose proof (turn_throw_last fuel question st) as Hturn.
  destruct (turn fuel question st) as [[[|]|e] st1]; cbn [fst snd] in Hturn |- *.
  - apply IH.
  - discriminate.
  - intros [= <-]. now apply Hturn.
Qed.

(** X4. As long as the completion responses carry their array of choices,
    an exception ends the session in one way only. The last two completion
    calls of the session are a call that failed with status 400 and code
    tool_use_failed, on a transcript the session has had, and right after
    it the fallback call, made without tools on the transcript the session
    ends with; the exception thrown by that fallback call is the one that
    leaves [main]. A failure of the search provider, a failure of another
    kind, or a tool-use failure whose fallback call answers never ends
    the session. *)
Theorem session_throw_origin (fuel : nat) (lines : list JsString) (e' : Exn) :
  fst (main_loop fuel lines initial_state) = Throws e' ->
  exists (earlier : list Call) (tools : bool) (transcript : list Message) (e : Exn),
    completions (snd (main_loop fuel lines initial_state))
      = earlier ++ [Completion tools; Completion false]
    /\ In transcript (history (snd (main_loop fuel lines initial_state)))
    /\ groq_create (length earlier) transcript tools = Throws e
    /\ is_tool_use_failed e = true
    /\ groq_create (S (length earlier))
         (messages (snd (main_loop fuel lines initial_state))) false
       = Throws e'.
Proof. apply session_throw_last. Qed.

(** X5. When the first pass of a turn fails with the tool-use failure and
    the fallback call throws too, that exception leaves the turn and the
    outer loop: the lines that follow are never read, and the transcript
    ends with the user message of the turn. *)
Theorem fallback_failure_ends_session (fuel : nat) (question : JsString)
    (rest : list JsString) (st : State) (e e' : Exn) :
  toLowerCase question <> lit "bye" ->
  groq_create (length (completions st)) (messages st ++ [User question]) true = Throws e ->
  is_tool_use_failed e = true ->
  groq_create (S (length (completions st))) (messages st ++ [User question]) false
    = Throws e' ->
  fst (main_loop (S fuel) (question :: rest) st) = Throws e'
  /\ messages (snd (main_loop (S fuel) (question :: rest) st))
       = messages st ++ [User question]
  /\ calls (snd (main_loop (S fuel) (question :: rest) st))
       = calls st ++ [Completion true; Completion false].
Proof.
  intros Hbye Hfirst Hfail Hfb.
  assert (Hturn : exists st',
             turn (S fuel) question st = (Throws e', st')
             /\ messages st' = messages st ++ [User question]
             /\ calls st' = calls st ++ [Completion true; Completion false]).
  { rewrite (turn_first_pass_throws fuel question st e Hfirst).
    unfold on_error. rewrite Hfail.
    unfold bind, pop, push, set_messages, create_completion, completions.
    cbn [messages snd fst calls history record_call].
    rewrite removelast_snoc, !filter_app. cbn [filter is_completion].
    rewrite ?length_app. cbn [length]. rewrite Nat.add_1_r.
    unfold completions in Hfb. rewrite Hfb.
    eexists. split; [reflexivity|]. cbn [messages calls].
    split; [reflexivity|]. now rewrite <- app_assoc. }
  destruct Hturn as (st' & Hturn & Hms & Hcs).
  cbn [main_loop].
  destruct (str_eqb (toLowerCase question) (lit "bye")) eqn:E;
    [apply str_eqb_eq in E; contradiction|].
  unfold bind. rewrite Hturn. cbn [fst snd]. auto.
Qed.

(** ** The exit word *)

(** X6. When a line is the exit word, the session ends there: the state
    is what the lines before it left, no message is pushed and no
    service is called for it, and whatever was typed after it changes
    nothing. *)
Theorem exit_word_ends_session (fuel : nat) (question : JsString) :
  toLowerCase question = lit "bye" ->
  forall (before after : list JsString) (st : State),
    main_loop fuel (question :: after) st = (Returns Exited, st)
    /\ main_loop fuel (before ++ question :: after) st
       = main_loop fuel (before ++ [question]) st.
Proof.
  intros Hbye before after.
  assert (Hnow : forall rest st, main_loop fuel (question :: rest) st = (Returns Exited, st)).
  { intros rest st. cbn [main_loop]. rewrite Hbye, str_eqb_refl. reflexivity. }
  intros st. split; [apply Hnow|].
  revert st. induction before as [|line before IH]; intros st.
  - cbn [app]. now rewrite !Hnow.
  - cbn [app main_loop].
    destruct (str_eqb (toLowerCase line) (lit "bye")); [reflexivity|].
    unfold bind. destruct (turn fuel line st) as [[[|]|e] st1]; try reflexivity.
    apply IH.
Qed.

(** ** A session without tool use *)

(** X7. When the completion provider answers every request with content,
    a session over lines none of which is the exit word reads them all:
    each line costs exactly one completion call, offered with tools, and
    adds its user message followed by one assistant message; no search is
    made. *)
Theorem chat_session (fuel : nat) (lines : list JsString) (st : State) :
  (forall (n : nat) (ms : list Message) (tools : bool),
     exists message rest,
       groq_create n ms tools = Returns (message :: rest)
       /\ truthy (msg_content message) = true) ->
  Forall (fun line => toLowerCase line <> lit "bye") lines ->
  exists answers : list (option JsString),
    length answers = length lines
    /\ fst (main_loop (S fuel) lines st) = Returns AwaitingInput
    /\ messages (snd (main_loop (S fuel) lines st))
         = messages st ++ exchanges lines answers
    /\ calls (snd (main_loop (S fuel) lines st))
         = calls st ++ repeat (Completion true) (length lines).
Proof.
  intros Hchat Hlines. revert st.
  induction Hlines as [|question rest Hq _ IH]; intros st.
  - exists []. cbn. rewrite !app_nil_r. repeat split.
  - destruct (Hchat (length (completions st)) (messages st ++ [User question]) true)
      as (message & others & Hfirst & Hcontent).
    cbn [main_loop].
    destruct (str_eqb (toLowerCase question) (lit "bye")) eqn:E;
      [apply str_eqb_eq in E; contradiction|].
    unfold bind.
    rewrite (turn_plain_answer fuel question st message others Hfirst Hcontent).
    match goal with
    | |- context [main_loop (S fuel) rest ?s] =>
        destruct (IH s) as (answers & Hlen & Hend & Hms' & Hcs')
    end.
    exists (msg_content message :: answers).
    split; [simpl; now rewrite Hlen|]. split; [exact Hend|]. split.
    + rewrite Hms'. cbn [snd push set_messages record_call messages exchanges].
      now rewrite <- !app_assoc.
    + rewrite Hcs'. cbn [snd push set_messages record_call calls length repeat].
      now rewrite <- app_assoc.
Qed.

(** ** The tool phase, once more *)

Lemma tool_ids_app (a b : list Message) : tool_ids (a ++ b) = tool_ids a ++ tool_ids b.
Proof. unfold tool_ids. apply flat_map_app. Qed.

Lemma segments_tool_ids (toolCalls : list ToolCall) (segs : list (list Message)) :
  Forall2 segment_of toolCalls segs ->
  tool_ids (concat segs) = List.map tc_id (filter recognized toolCalls).
Proof.
  induction 1 as [|tc seg tcs segs Hseg _ IH]; [reflexivity|].
  cbn [concat filter]. rewrite tool_ids_app, IH.
  inversion Hseg as [Hr|Hr|text Hr]; subst; rewrite Hr; reflexivity.
Qed.

(** X8. The tool messages that the tool phase appends carry, in this
    order, the ids of the requested calls named [webSearch], in the order
    the provider listed them: each such call is answered once, none is
    answered out of turn, and no other id appears. *)
Theorem tool_results_follow_request_order (toolCalls : list ToolCall) (st : State) :
  tool_ids (appended st (snd (for_each_tool_call toolCalls st)))
    = List.map tc_id
        (filter (fun tc => str_eqb (fn_name tc) (lit "webSearch")) toolCalls).
Proof.
  destruct (for_each_tool_call_segments toolCalls st) as (segs & Hsegs & _ & Hm).
  rewrite (appended_app _ _ (concat segs) Hm).
  apply (segments_tool_ids toolCalls segs Hsegs).
Qed.

Lemma segments_followed (toolCalls : list ToolCall) (segs : list (list Message)) :
  Forall2 segment_of toolCalls segs ->
  forall (pre : list Message) (c : option JsString) (requested : option (list ToolCall))
         (post : list Message),
    concat segs = pre ++ Assistant c requested :: post ->
    exists (tc : ToolCall) (text : JsString) (post' : list Message),
      In tc toolCalls /\ c = None /\ requested = Some [tc]
      /\ post = Tool (tc_id tc) text :: post'.
Proof.
  induction 1 as [|tc seg tcs segs Hseg _ IH]; intros pre c requested post Heq.
  - destruct pre; discriminate.
  - assert (Hrest : forall pre0,
              concat segs = pre0 ++ Assistant c requested :: post ->
              exists (tc' : ToolCall) (text : JsString) (post' : list Message),
                In tc' (tc :: tcs) /\ c = None /\ requested = Some [tc']
                /\ post = Tool (tc_id tc') text :: post').
    { intros pre0 H0.
      destruct (IH pre0 c requested post H0) as (tc' & text & post' & Hin & Hrest).
      exists tc', text, post'. split; [now right|exact Hrest]. }
    simpl in Heq. inversion Hseg as [Hr|Hr|text0 Hr]; subst seg.
    + now apply (Hrest pre).
    + destruct pre as [|m pre0]; simpl in Heq; [discriminate|].
      injection Heq as _ Heq. now apply (Hrest pre0).
    + destruct pre as [|m [|m' pre0]]; simpl in Heq.
      * injection Heq as <- <- <-.
        exists tc, text0, (concat segs). split; [now left|]. repeat split.
      * discriminate.
      * injection Heq as _ _ Heq. now apply (Hrest pre0).
Qed.

(** X9. Every assistant message that the tool phase appends is the record
    of exactly one requested call, with no content, and the message right
    after it is the tool message with the id of that call: a record is
    never left without its result. *)
Theorem tool_record_is_followed_by_result (toolCalls : list ToolCall) (st : State)
    (pre : list Message) (c : option JsString) (requested : option (list ToolCall))
    (post : list Message) :
  appended st (snd (for_each_tool_call toolCalls st)) = pre ++ Assistant c requested :: post ->
  exists (tc : ToolCall) (text : JsString) (post' : list Message),
    In tc toolCalls /\ c = None /\ requested = Some [tc]
    /\ post = Tool (tc_id tc) text :: post'.
Proof.
  destruct (for_each_tool_call_segments toolCalls st) as (segs & Hsegs & _ & Hm).
  rewrite (appended_app _ _ (concat segs) Hm).
  apply (segments_followed toolCalls segs Hsegs).
Qed.

Lemma searches_within_le (k n : nat) (st : State) :
  k <= n -> searches_within k st -> searches_within n st.
Proof. unfold searches_within. lia. Qed.

Lemma searches_within_push_stable (k : nat) : push_stable (searches_within k).
Proof. intros m st H. exact H. Qed.

Lemma webSearch_searches (k : nat) (args : JsValue) :
  hoare (searches_within k) (webSearch args) (searches_within (S k)).
Proof.
  assert (Hup : forall st, searches_within k st -> searches_within (S k) st).
  { intros st. apply searches_within_le. lia. }
  unfold webSearch.
  apply (hoare_bind _ (searches_within k) _); [| |exact Hup].
  { intros st H. unfold searches_within. rewrite searches_record. simpl.
    now rewrite app_nil_r. }
  intros _. apply (hoare_bind _ (searches_within k) _); [apply hoare_lift| |exact Hup].
  intros query.
  destruct (falsy query); [intros st; apply Hup|].
  destruct query as [[| | |q| |]|]; try (intros st; apply Hup).
  destruct (trim q) as [|c t]; [intros st; apply Hup|].
  apply (hoare_try_catch _ (searches_within (S k)) _); [| |auto].
  - apply (hoare_bind _ (searches_within (S k)) _); [| |auto].
    + intros st H. unfold searches_within in *.
      change (snd (search_provider q st))
        with (snd (record_call (TavilySearch q) st)).
      rewrite searches_record, length_app. simpl. lia.
    + intros [[|r rs]|]; apply hoare_ret.
  - intros e. apply hoare_ret.
Qed.

Lemma handle_tool_call_searches (k : nat) (toolCall : ToolCall) :
  hoare (searches_within k) (handle_tool_call toolCall)
    (searches_within (k + length (filter recognized [toolCall]))).
Proof.
  unfold handle_tool_call. cbn [filter].
  destruct (recognized toolCall); cbn [length].
  - apply (hoare_try_catch _ (searches_within (S k)) _).
    + apply (hoare_bind _ (searches_within k) _).
      * apply hoare_lift.
      * intros args. apply (hoare_bind _ (searches_within (S k)) _).
        -- apply webSearch_searches.
        -- intros text. apply hoare_seq; intros; intros st;
             apply searches_within_push_stable.
        -- auto.
      * intros st. apply searches_within_le. lia.
    + intros e st H. apply (searches_within_le (S k)); [lia|].
      now apply searches_within_push_stable.
    + intros st. apply searches_within_le. lia.
  - intros st. apply searches_within_le. lia.
Qed.

Lemma for_each_tool_call_completions (toolCalls : list ToolCall) (st : State) :
  completions (snd (for_each_tool_call toolCalls st)) = completions st.
Proof.
  apply (for_each_tool_call_keeps (fun s => completions s = completions st) toolCalls);
    [|intros m s H; exact H|reflexivity].
  intros c s Hc H. rewrite completions_record. simpl. rewrite Hc, app_nil_r. exact H.
Qed.

(** X10. The tool phase issues no completion call, and at most one search
    request for each requested call named [webSearch]; calls with another
    name cost nothing. *)
Theorem tool_phase_calls (toolCalls : list ToolCall) (st : State) :
  completions (snd (for_each_tool_call toolCalls st)) = completions st
  /\ length (searches (snd (for_each_tool_call toolCalls st)))
       <= length (searches st)
          + length (filter (fun tc => str_eqb (fn_name tc) (lit "webSearch")) toolCalls).
Proof.
  split.
  - apply for_each_tool_call_completions.
  - change (fun tc => str_eqb (fn_name tc) (lit "webSearch")) with recognized.
    assert (H : forall k, hoare (searches_within k) (for_each_tool_call toolCalls)
                            (searches_within (k + length (filter recognized toolCalls)))).
    { induction toolCalls as [|tc rest IH]; intros k.
      - intros s Hs. apply (searches_within_le k); [lia|exact Hs].
      - cbn [for_each_tool_call].
        apply (hoare_bind _ (searches_within (k + length (filter recognized [tc]))) _).
        + apply handle_tool_call_searches.
        + intros _.
          apply (hoare_weaken _ _ _ _ _ (IH (k + length (filter recognized [tc]))));
            [auto|].
          intros s. apply searches_within_le.
          cbn [filter]. destruct (recognized tc); cbn [length]; lia.
        + intros s. apply searches_within_le.
          cbn [filter]. destruct (recognized tc); cbn [length]; lia. }
    apply (H (length (searches st)) st). unfold searches_within. lia.
Qed.

(** ** The tool executor, once more *)

Lemma trimStart_nil (s : JsString) : trimStart s = [] -> blank s.
Proof.
  induction s as [|c s IH]; simpl; [constructor|].
  destruct (is_white_space c) eqn:Hc; [|discriminate].
  intros H. constructor; [exact Hc|now apply IH].
Qed.

Lemma trimStart_blank_nil (s : JsString) : blank (trimStart s) -> trimStart s = [].
Proof.
  induction s as [|c s IH]; simpl; [reflexivity|].
  destruct (is_white_space c) eqn:Hc; [exact IH|].
  intros H. inversion H as [|? ? Hc' _]. congruence.
Qed.

Lemma trim_nil (q : JsString) : trim q = [] -> blank q.
Proof.
  unfold trim, trimEnd. intros H.
  apply (f_equal (@rev code_unit)) in H. rewrite rev_involutive in H. simpl in H.
  apply trimStart_nil in H. apply Forall_rev in H. rewrite rev_involutive in H.
  now apply trimStart_nil, trimStart_blank_nil.
Qed.

(** X11. On a string query with a code unit that is not white space,
    [webSearch] sends exactly one request to the search provider, and the
    request carries the query as it was given: the white space at its ends
    is tested but not removed. *)
Theorem nonblank_query_searched_once (args : JsValue) (q : JsString) (st : State) :
  destructure_query args = Returns (Some (JString q)) ->
  ~ blank q ->
  calls (snd (webSearch args st)) = calls st ++ [WebSearch args; TavilySearch q].
Proof.
  intros Hq Hnb. rewrite (webSearch_string args q st Hq). cbv zeta.
  destruct (trim q) as [|c t] eqn:Ht; [exfalso; now apply Hnb, trim_nil|].
  cbn [snd record_call calls]. now rewrite <- app_assoc.
Qed.

(** X12. When the search provider answers with an empty list of results,
    or with none at all, [webSearch] returns the text that no result was
    found, quoting the query. *)
Theorem no_results_reported (args : JsValue) (q : JsString) (st : State)
    (results : option (list SearchResult)) :
  destructure_query args = Returns (Some (JString q)) ->
  ~ blank q ->
  tvly_search (length (searches st)) q = Returns results ->
  results = None \/ results = Some [] ->
  fst (webSearch args st)
    = Returns (lit "No results found for " ++ dq ++ q ++ dq
               ++ lit ". Please try a different search query.").
Proof.
  intros Hq Hnb Htv Hnone. rewrite (webSearch_string args q st Hq). cbv zeta.
  destruct (trim q) as [|c t] eqn:Ht; [exfalso; now apply Hnb, trim_nil|].
  rewrite Htv. destruct Hnone as [->| ->]; reflexivity.
Qed.

(** X13. The content shown for a result never has more than 503 code
    units, and its first 500 code units are those of the content of the
    result. *)
Theorem shown_content_bounded (result : SearchResult) :
  length (shown_content result) <= 503
  /\ firstn 500 (shown_content result) = firstn 500 (or_else (content result) []).
Proof.
  unfold shown_content, substring0.
  destruct (Nat.ltb_spec 500 (length (or_else (content result) []))) as [Hlt|Hge].
  - split.
    + rewrite length_app, length_firstn.
      change (length (lit "...")) with 3. lia.
    + rewrite firstn_app, length_firstn.
      replace (500 - Nat.min 500 (length (or_else (content result) []))) with 0 by lia.
      rewrite firstn_firstn. simpl. now rewrite app_nil_r.
  - split; [lia|reflexivity].
Qed.

(** X14. [webSearch] never touches the conversation: the transcript, all
    the values it has had, and the completion calls made are after the
    call what they were before it, whatever the arguments and whatever
    the search provider does. *)
Theorem webSearch_leaves_transcript (args : JsValue) (st : State) :
  messages (snd (webSearch args st)) = messages st
  /\ history (snd (webSearch args st)) = history st
  /\ completions (snd (webSearch args st)) = completions st.
Proof.
  apply (webSearch_keeps
           (fun s => messages s = messages st /\ history s = history st
                     /\ completions s = completions st) args).
  - intros c s Hc (Hm & Hh & Hcs). repeat split; auto.
    rewrite completions_record. simpl. now rewrite Hc, app_nil_r.
  - repeat split.
Qed.

Lemma webSearch_not_string (args : JsValue) (v : option JsValue) (st : State) :
  destructure_query args = Returns v ->
  (forall q, v <> Some (JString q)) ->
  webSearch args st
    = (if falsy v then Returns no_query_text else Throws TypeError,
       snd (record_call (WebSearch args) st)).
Proof.
  intros Hv Hns. unfold webSearch, bind, lift.
  cbn [record_call fst snd]. rewrite Hv.
  destruct v as [[|b|z|q|items|props]|]; cbn [falsy]; try reflexivity.
  - now destruct b.
  - now destruct (Z.eqb z 0).
  - exfalso. now apply (Hns q).
Qed.

Lemma webSearch_null (args : JsValue) (e : Exn) (st : State) :
  destructure_query args = Throws e ->
  webSearch args st = (Throws e, snd (record_call (WebSearch args) st)).
Proof.
  intros Hv. unfold webSearch, bind, lift. cbn [record_call fst snd]. now rewrite Hv.
Qed.

(** X15. A call named [webSearch] whose arguments parse, but hold under
    [query] no string with a code unit other than white space, never
    reaches the search provider. When the query is missing, null, false,
    zero, or a string that is empty or made of white space, the call is
    recorded and answered with [Error: No search query provided]. When the
    arguments are null, or the query is any other value that is not a
    string, the executor throws and the call is answered, without a
    record, with [Error: Invalid search parameters]. *)
Theorem query_of_wrong_type (toolCall : ToolCall) (args : JsValue) (st : State) :
  fn_name toolCall = lit "webSearch" ->
  JSON_parse (fn_arguments toolCall) = Some args ->
  (forall q, destructure_query args = Returns (Some (JString q)) -> blank q) ->
  searches (snd (handle_tool_call toolCall st)) = searches st
  /\ (forall v,
        destructure_query args = Returns v ->
        falsy v = true \/ (exists q, v = Some (JString q)) ->
        appended st (snd (handle_tool_call toolCall st))
          = [Assistant None (Some [toolCall]);
             Tool (tc_id toolCall) (lit "Error: No search query provided")])
  /\ (forall v,
        destructure_query args = Returns v ->
        falsy v = false -> (forall q, v <> Some (JString q)) ->
        appended st (snd (handle_tool_call toolCall st))
          = [Tool (tc_id toolCall) (lit "Error: Invalid search parameters")])
  /\ (forall e,
        destructure_query args = Throws e ->
        appended st (snd (handle_tool_call toolCall st))
          = [Tool (tc_id toolCall) (lit "Error: Invalid search parameters")]).
Proof.
  intros Hn Hp Hblank.
  assert (Hr : recognized toolCall = true) by (now apply str_eqb_eq).
  rewrite (handle_tool_call_parsed toolCall args st Hr Hp).
  assert (Hstring : forall q,
            destructure_query args = Returns (Some (JString q)) ->
            webSearch args st
              = (Returns no_query_text, snd (record_call (WebSearch args) st))).
  { intros q Hq. rewrite (webSearch_string args q st Hq). cbv zeta.
    now rewrite (trim_blank q (Hblank q Hq)). }
  assert (Hrecorded : forall s,
            webSearch args st = (Returns no_query_text, snd (record_call (WebSearch args) st)) ->
            s = snd (match webSearch args st with
                     | (Returns toolResult, st1) =>
                         push (Tool (tc_id toolCall) toolResult)
                           (snd (push (Assistant None (Some [toolCall])) st1))
                     | (Throws _, st1) =>
                         push (Tool (tc_id toolCall) invalid_parameters_text) st1
                     end) ->
            searches s = searches st
            /\ appended st s
               = [Assistant None (Some [toolCall]); Tool (tc_id toolCall) no_query_text]).
  { intros s Hw ->. rewrite Hw. split.
    - unfold searches. cbn [snd push set_messages record_call calls].
      rewrite filter_app. simpl. apply app_nil_r.
    - apply appended_app. cbn [snd push set_messages record_call messages].
      now rewrite <- app_assoc. }
  assert (Hrefused : forall s e,
            webSearch args st = (Throws e, snd (record_call (WebSearch args) st)) ->
            s = snd (match webSearch args st with
                     | (Returns toolResult, st1) =>
                         push (Tool (tc_id toolCall) toolResult)
                           (snd (push (Assistant None (Some [toolCall])) st1))
                     | (Throws _, st1) =>
                         push (Tool (tc_id toolCall) invalid_parameters_text) st1
                     end) ->
            searches s = searches st
            /\ appended st s = [Tool (tc_id toolCall) invalid_parameters_text]).
  { intros s e Hw ->. rewrite Hw. split.
    - unfold searches. cbn [snd push set_messages record_call calls].
      rewrite filter_app. simpl. apply app_nil_r.
    - apply appended_app. reflexivity. }
  assert (Hfalsy : forall v,
            destructure_query args = Returns v -> (forall q, v <> Some (JString q)) ->
            webSearch args st
              = (if falsy v then Returns no_query_text else Throws TypeError,
                 snd (record_call (WebSearch args) st))).
  { intros v Hv Hns. now apply webSearch_not_string. }
  split; [|split; [|split]].
  - destruct (destructure_query args) as [v|e] eqn:Hv.
    + destruct v as [[|b|z|q|items|props]|] eqn:Ev;
        try (assert (Hw := Hfalsy _ eq_refl ltac:(intros q' H'; discriminate H'));
             destruct (falsy _) in Hw;
             [exact (proj1 (Hrecorded _ Hw eq_refl))
             |exact (proj1 (Hrefused _ _ Hw eq_refl))]).
      exact (proj1 (Hrecorded _ (Hstring q eq_refl) eq_refl)).
    + exact (proj1 (Hrefused _ _ (webSearch_null args e st Hv) eq_refl)).
  - intros v Hv [Hf|(q & ->)].
    + destruct v as [[|b|z|q|items|props]|] eqn:Ev;
        try (assert (Hw := Hfalsy _ Hv ltac:(intros q' H'; discriminate H'));
             rewrite Hf in Hw; exact (proj2 (Hrecorded _ Hw eq_refl))).
      exact (proj2 (Hrecorded _ (Hstring q Hv) eq_refl)).
    + exact (proj2 (Hrecorded _ (Hstring q Hv) eq_refl)).
  - intros v Hv Hf Hns.
    assert (Hw := Hfalsy v Hv Hns). rewrite Hf in Hw.
    exact (proj2 (Hrefused _ _ Hw eq_refl)).
  - intros e Hv. exact (proj2 (Hrefused _ _ (webSearch_null args e st Hv) eq_refl)).
Qed.

(** ** The completion calls of a turn, in order *)

Lemma passes_two (n : nat) :
  passes (S (S n)) = [Completion true; Completion false] ++ passes n.
Proof. reflexivity. Qed.

Lemma agent_loop_passes (fuel : nat) (st : State) :
  exists n : nat,
    n <= 2 * fuel
    /\ completions (snd (agent_loop fuel st)) = completions st ++ passes n.
Proof.
  revert st. induction fuel as [|fuel IH]; intros st.
  - exists 0. split; [lia|]. simpl. now rewrite app_nil_r.
  - rewrite agent_loop_first_pass.
    assert (H1 : completions (snd (record_call (Completion true) st))
                 = completions st ++ passes 1).
    { now rewrite completions_record. }
    assert (Hone : exists n, n <= 2 * S fuel
                     /\ completions (snd (record_call (Completion true) st))
                        = completions st ++ passes n).
    { exists 1. split; [lia|exact H1]. }
    destruct (groq_create (length (completions st)) (messages st) true)
      as [[|message rest]|e]; try exact Hone.
    destruct (truthy (msg_content message)); [exact Hone|].
    destruct (msg_tool_calls message) as [[|tc tcs]|]; try exact Hone.
    unfold bind at 1.
    pose proof (for_each_tool_call_returns (tc :: tcs)
                  (snd (record_call (Completion true) st))) as Hret.
    pose proof (for_each_tool_call_completions (tc :: tcs)
                  (snd (record_call (Completion true) st))) as Hsame.
    destruct (for_each_tool_call (tc :: tcs) (snd (record_call (Completion true) st)))
      as [[[]|e1] st2]; cbn [fst snd] in Hret, Hsame; [|discriminate].
    unfold bind at 1. unfold create_completion at 1.
    assert (H2 : completions (snd (record_call (Completion false) st2))
                 = completions st ++ passes 2).
    { rewrite completions_record, Hsame, H1. simpl. now rewrite <- app_assoc. }
    assert (Htwo : exists n, n <= 2 * S fuel
                     /\ completions (snd (record_call (Completion false) st2))
                        = completions st ++ passes n).
    { exists 2. split; [lia|exact H2]. }
    assert (Hround : exists n, n <= 2 * S fuel
                       /\ completions
                            (snd (agent_loop fuel (snd (record_call (Completion false) st2))))
                          = completions st ++ passes n).
    { destruct (IH (snd (record_call (Completion false) st2))) as (n & Hn & Hc).
      exists (S (S n)). split; [lia|].
      rewrite Hc, H2, passes_two. now rewrite <- app_assoc. }
    destruct (groq_create (length (completions st2)) (messages st2) false)
      as [[|finalMessage rest']|e2]; [exact Hround| |exact Htwo].
    destruct (truthy (msg_content finalMessage)); [exact Htwo|exact Hround].
Qed.

Lemma on_error_completions (question : JsString) (e : Exn) (st : State) :
  completions (snd (on_error question e st))
    = completions st ++ (if is_tool_use_failed e then [Completion false] else []).
Proof.
  unfold on_error. destruct (is_tool_use_failed e); [|now rewrite app_nil_r].
  unfold bind at 1. unfold pop at 1, set_messages at 1.
  unfold bind at 1. unfold push at 1, set_messages at 1.
  unfold bind at 1. unfold create_completion at 1.
  match goal with
  | |- context [groq_create ?k ?t false] =>
      destruct (groq_create k t false) as [[|fallbackMessage rest]|e2]
  end.
  - unfold completions. cbn [snd ret record_call calls]. now rewrite filter_app.
  - destruct (truthy (msg_content fallbackMessage));
      unfold completions; cbn [snd ret push set_messages record_call calls];
      now rewrite filter_app.
  - unfold completions. cbn [snd record_call calls]. now rewrite filter_app.
Qed.

(** X16. The completion calls of a turn are, in order, first passes with
    tools and second passes without tools in alternation, starting with a
    first pass, at most two for each iteration of the inner loop, followed
    by the fallback call without tools if it is made: tools are never
    offered twice in a row, and never on the last call of a turn that ran
    the fallback. *)
Theorem turn_passes (fuel : nat) (question : JsString) (st : State) :
  exists (n : nat) (fallback : list Call),
    n <= 2 * fuel
    /\ (fallback = [] \/ fallback = [Completion false])
    /\ completions (snd (turn fuel question st))
       = completions st ++ passes n ++ fallback.
Proof.
  rewrite turn_unfold.
  destruct (agent_loop_passes fuel (snd (push (User question) st))) as (n & Hn & Hc).
  change (completions (snd (push (User question) st))) with (completions st) in Hc.
  destruct (agent_loop fuel (snd (push (User question) st))) as [[[|]|e] s];
    cbn [snd] in Hc.
  - exists n, []. split; [exact Hn|]. split; [now left|]. now rewrite app_nil_r.
  - exists n, []. split; [exact Hn|]. split; [now left|]. now rewrite app_nil_r.
  - exists n, (if is_tool_use_failed e then [Completion false] else []).
    split; [exact Hn|]. split; [destruct (is_tool_use_failed e); auto|].
    unfold bind at 1.
    pose proof (on_error_completions question e s) as He.
    destruct (on_error question e s) as [[[]|e'] s']; unfold ret; cbn [snd] in *;
      rewrite He, Hc; now rewrite <- app_assoc.
Qed.

(** ** A turn with one tool round *)

(** X17. When the first pass asks for tool calls and the second pass,
    the completion call made on the transcript that the tool phase leaves,
    returns content, the turn settles after exactly these two completion
    calls. The transcript gains the user message, what the tool phase
    appended, whose tool messages carry the ids of the calls named
    [webSearch] in request order, and last the assistant message with the
    content of the second pass. *)
Theorem tool_round_turn (fuel : nat) (question : JsString) (st : State)
    (message : ChoiceMessage) (rest : list ChoiceMessage)
    (tc : ToolCall) (tcs : list ToolCall)
    (finalMessage : ChoiceMessage) (rest' : list ChoiceMessage) :
  groq_create (length (completions st)) (messages st ++ [User question]) true
    = Returns (message :: rest) ->
  truthy (msg_content message) = false ->
  msg_tool_calls message = Some (tc :: tcs) ->
  groq_create (S (length (completions st)))
    (messages (snd (for_each_tool_call (tc :: tcs)
                      (snd (record_call (Completion true)
                              (snd (push (User question) st)))))))
    false
    = Returns (finalMessage :: rest') ->
  truthy (msg_content finalMessage) = true ->
  exists added : list Message,
    fst (turn (S fuel) question st) = Returns Settled
    /\ messages (snd (turn (S fuel) question st))
       = messages st ++ [User question] ++ added
         ++ [Assistant (msg_content finalMessage) None]
    /\ tool_ids added
       = List.map tc_id
           (filter (fun c => str_eqb (fn_name c) (lit "webSearch")) (tc :: tcs))
    /\ completions (snd (turn (S fuel) question st))
       = completions st ++ [Completion true; Completion false].
Proof.
  intros Hfirst Hcontent Hcalls Hsecond Hfinal.
  set (st1 := snd (push (User question) st)) in *.
  set (st1' := snd (record_call (Completion true) st1)) in *.
  set (st2 := snd (for_each_tool_call (tc :: tcs) st1')) in *.
  pose proof (agent_loop_second_pass fuel st1 message rest tc tcs Hfirst Hcontent Hcalls)
    as Hloop.
  cbv zeta in Hloop. fold st1' in Hloop. fold st2 in Hloop.
  pose proof (for_each_tool_call_completions (tc :: tcs) st1') as Hsame.
  fold st2 in Hsame.
  assert (Hcount : length (completions st2) = S (length (completions st))).
  { rewrite Hsame. unfold st1'. rewrite completions_record, length_app.
    simpl. unfold st1. change (completions (snd (push (User question) st)))
      with (completions st). lia. }
  rewrite Hcount, Hsecond, Hfinal in Hloop.
  destruct (for_each_tool_call_segments (tc :: tcs) st1') as (segs & Hsegs & _ & Hm).
  fold st2 in Hm.
  exists (concat segs).
  rewrite turn_unfold. fold st1. rewrite Hloop.
  cbn [fst snd push set_messages record_call messages calls].
  split; [reflexivity|]. split; [|split].
  - rewrite Hm. unfold st1', st1. cbn [snd push set_messages record_call messages].
    now rewrite <- !app_assoc.
  - apply (segments_tool_ids (tc :: tcs) segs Hsegs).
  - unfold completions at 1. cbn [calls]. rewrite filter_app. fold (completions st2).
    rewrite Hsame. unfold st1'. rewrite completions_record.
    unfold st1. change (completions (snd (push (User question) st)))
      with (completions st).
    simpl. now rewrite <- app_assoc.
Qed.
End Agent.

(** * Instances on the sample data *)

Lemma truncation_law_witness :
  format_result Sample.long_result 0
    = block_head Sample.long_result 0 ++ firstn 500 (repeat 97%N 600) ++ lit "..."
  /\ format_result Sample.short_result 2
    = block_head Sample.short_result 2 ++ lit "18 degrees and partly cloudy".
Proof.
  split.
  - apply (truncation_law Sample.long_result 0 (repeat 97%N 600) eq_refl).
    apply Nat.ltb_lt. vm_compute. reflexivity.
  - apply (truncation_law Sample.short_result 2 (lit "18 degrees and partly cloudy") eq_refl).
    apply Nat.leb_le. vm_compute. reflexivity.
Defined.

Lemma display_cap_witness :
  fst (webSearch Sample.tvly_five Sample.paris_args initial_state)
    = Returns (lit "Search Results for " ++ dq ++ lit "weather in Paris today" ++ dq
               ++ lit ":" ++ nl ++ nl
               ++ lit "[1] Title: Paris weather" ++ nl
               ++ lit "URL: https://example.org/paris" ++ nl
               ++ lit "Content: 18 degrees and partly cloudy" ++ nl ++ nl
               ++ lit "[2] Title: No title" ++ nl
               ++ lit "URL: https://example.org/long" ++ nl
               ++ lit "Content: " ++ repeat 97%N 500 ++ lit "..." ++ nl ++ nl
               ++ lit "[3] Title: Paris weather" ++ nl
               ++ lit "URL: https://example.org/paris" ++ nl
               ++ lit "Content: 18 degrees and partly cloudy" ++ nl ++ nl
               ++ lit "Total results found: 5").
Proof.
  rewrite (display_cap Sample.tvly_five Sample.paris_args Sample.paris initial_state
             Sample.five_results).
  - vm_compute. reflexivity.
  - reflexivity.
  - discriminate.
  - reflexivity.
  - simpl. lia.
Defined.

Lemma blank_query_rejected_witness :
  fst (webSearch Sample.tvly_five (JObject [(lit "query", JString (lit "   "))]) initial_state)
    = Returns (lit "Error: No search query provided")
  /\ searches (snd (webSearch Sample.tvly_five
                      (JObject [(lit "query", JString (lit "   "))]) initial_state)) = [].
Proof.
  apply (blank_query_rejected Sample.tvly_five
           (JObject [(lit "query", JString (lit "   "))]) (lit "   ") initial_state).
  - reflexivity.
  - repeat constructor.
Defined.

(** The same on the empty query. *)
Example empty_query_rejected :
  fst (webSearch Sample.tvly_five (JObject [(lit "query", JString [])]) initial_state)
    = Returns (lit "Error: No search query provided").
Proof. reflexivity. Qed.

Lemma webSearch_total_witness :
  fst (webSearch Sample.tvly_down Sample.paris_args initial_state)
    = Returns (lit "Error occurred while searching for " ++ dq ++ Sample.paris ++ dq
               ++ lit ". Please try again.").
Proof.
  apply (proj2 (webSearch_total Sample.tvly_down Sample.paris_args Sample.paris
                  initial_state eq_refl) TypeError).
  - discriminate.
  - reflexivity.
Defined.

Lemma only_webSearch_is_handled_witness :
  handle_tool_call Sample.parse Sample.tvly_five Sample.call_named_search initial_state
    = (Returns tt, initial_state).
Proof.
  apply (proj1 (only_webSearch_is_handled Sample.parse Sample.tvly_five
                  Sample.call_named_search initial_state)).
  intros H. vm_compute in H. discriminate H.
Defined.

Lemma error_result_correlated_witness :
  appended initial_state
    (snd (handle_tool_call Sample.parse Sample.tvly_five Sample.call_malformed initial_state))
    = [Tool (lit "call_2") (lit "Error: Invalid search parameters")].
Proof.
  apply (error_result_correlated Sample.parse Sample.tvly_five
           Sample.call_malformed initial_state).
  - reflexivity.
  - left. reflexivity.
Defined.

Lemma tool_phase_transcript_witness :
  length (filter is_tool_message
            (appended initial_state
               (snd (for_each_tool_call Sample.parse Sample.tvly_five
                       [Sample.call_search; Sample.call_malformed; Sample.call_named_search]
                       initial_state)))) = 2
  /\ calls (snd (handle_tool_call Sample.parse Sample.tvly_five
                   Sample.call_malformed initial_state)) = [].
Proof.
  destruct (tool_phase_transcript Sample.parse Sample.tvly_five
              [Sample.call_search; Sample.call_malformed; Sample.call_named_search]
              initial_state)
    as (_ & _ & Hcount & _ & Herr).
  split.
  - exact Hcount.
  - apply (Herr Sample.call_malformed initial_state); reflexivity.
Defined.

Lemma turn_completion_calls_witness :
  ((forall more : nat,
      turn Sample.parse Sample.groq_one_round Sample.tvly_five (1 + more)
           Sample.question initial_state
      = turn Sample.parse Sample.groq_one_round Sample.tvly_five 1
             Sample.question initial_state)
   /\ length (completions
                (snd (turn Sample.parse Sample.groq_one_round Sample.tvly_five 1
                           Sample.question initial_state))) <= 0 + (2 * 1 + 1))
  /\ agent_loop Sample.parse Sample.groq_two_rounds Sample.tvly_five 2
       (snd (push (User Sample.question) initial_state))
     = agent_loop Sample.parse Sample.groq_two_rounds Sample.tvly_five 1
         (snd (record_call (Completion false)
            (snd (for_each_tool_call Sample.parse Sample.tvly_five [Sample.call_search]
               (snd (record_call (Completion true)
                  (snd (push (User Sample.question) initial_state)))))))).
Proof.
  split.
  - apply (proj1 (turn_completion_calls Sample.parse Sample.groq_one_round Sample.tvly_five)
             1 Sample.question initial_state).
    vm_compute. discriminate.
  - apply (proj2 (turn_completion_calls Sample.parse Sample.groq_two_rounds Sample.tvly_five)
             1 (snd (push (User Sample.question) initial_state))
             {| msg_content := None; msg_tool_calls := Some [Sample.call_search] |}
             [] Sample.call_search []);
      reflexivity.
Defined.

(** * Where the code departs from the specification *)

(** The second pass of a turn returns no content: the loop goes back to a
    first pass with tools, a second tool round is run, and the turn settles
    after four completion calls. *)
Lemma one_tool_round_counterexample :
  fst (turn Sample.parse Sample.groq_two_rounds Sample.tvly_five 2
            Sample.question initial_state) = Returns Settled
  /\ calls (snd (turn Sample.parse Sample.groq_two_rounds Sample.tvly_five 2
                      Sample.question initial_state))
     = [Completion true; WebSearch Sample.paris_args; TavilySearch Sample.paris;
        Completion false;
        Completion true; WebSearch Sample.paris_args; TavilySearch Sample.paris;
        Completion false]
  /\ ~ length (completions
                 (snd (turn Sample.parse Sample.groq_two_rounds Sample.tvly_five 2
                            Sample.question initial_state))) <= 3.
Proof.
  split; [vm_compute; reflexivity|]. split; [vm_compute; reflexivity|].
  vm_compute. lia.
Qed.

(** A turn whose only requested call has arguments that do not parse: one
    tool message is appended although no recognized call has arguments that
    parse, and the message before it is the user message, not an assistant
    record of the call. *)
Lemma tool_message_count_counterexample :
  messages (snd (turn Sample.parse Sample.groq_malformed Sample.tvly_five 1
                      Sample.question initial_state))
    = [system_message; User Sample.question;
       Tool (lit "call_2") (lit "Error: Invalid search parameters");
       Assistant (Some Sample.answer) None]
  /\ length (filter (fun tc => recognized tc && Sample.parses tc) [Sample.call_malformed]) = 0
  /\ length (filter is_tool_message
               (appended initial_state
                  (snd (for_each_tool_call Sample.parse Sample.tvly_five
                          [Sample.call_malformed] initial_state)))) = 1.
Proof.
  split; [vm_compute; reflexivity|]. split; vm_compute; reflexivity.
Qed.

(** A call named [search] is ignored, and a call named [webSearch], a name
    other than [search], is processed: the executor is entered, the search
    provider is called and two messages are appended. *)
Lemma search_name_counterexample :
  fn_name Sample.call_named_search = lit "search"
  /\ handle_tool_call Sample.parse Sample.tvly_five Sample.call_named_search initial_state
       = (Returns tt, initial_state)
  /\ fn_name Sample.call_search <> lit "search"
  /\ appended initial_state
       (snd (handle_tool_call Sample.parse Sample.tvly_five Sample.call_search initial_state))
       = [Assistant None (Some [Sample.call_search]);
          Tool (lit "call_1") (search_results_text Sample.paris Sample.five_results)]
  /\ calls (snd (handle_tool_call Sample.parse Sample.tvly_five Sample.call_search
                   initial_state))
       = [WebSearch Sample.paris_args; TavilySearch Sample.paris].
Proof.
  split; [reflexivity|]. split; [vm_compute; reflexivity|].
  split; [intros H; vm_compute in H; discriminate H|].
  split; vm_compute; reflexivity.
Qed.

(** C3. On a turn whose second pass gives no content and whose next first
    pass fails with status 400 and code tool_use_failed, the fallback call
    is issued without tools, but the message that the handler pops is the
    tool message of the round and not the user message: the user message
    is pushed a second time, and the fallback call sees an assistant record
    of a tool call with no tool message after it. *)
Example fallback_pops_tool_message :
  let requested := Assistant None (Some [Sample.call_search]) in
  let found := Tool (lit "call_1") (no_results_text Sample.paris) in
  let asked := User Sample.question in
  let st' := snd (turn Sample.parse Sample.groq_fails_after_round Sample.tvly_none 2
                       Sample.question initial_state) in
  completions st' = [Completion true; Completion false; Completion true; Completion false]
  /\ history st'
     = [[system_message];
        [system_message; asked];
        [system_message; asked; requested];
        [system_message; asked; requested; found];
        [system_message; asked; requested];
        [system_message; asked; requested; asked];
        [system_message; asked; requested; asked; Assistant (Some Sample.answer) None]]
  /\ messages st'
     = [system_message; asked; requested; asked; Assistant (Some Sample.answer) None].
Proof.
  cbv zeta. split; [vm_compute; reflexivity|]. split; vm_compute; reflexivity.
Qed.

(** The same failure on the first pass of the turn: the transcript that
    the fallback call sees is the one the first pass saw. *)
Example fallback_on_first_pass_sample :
  messages (snd (turn Sample.parse (Sample.scripted [Sample.tool_use_failed; Sample.says Sample.answer])
                      Sample.tvly_none 1 Sample.question initial_state))
    = [system_message; User Sample.question; Assistant (Some Sample.answer) None].
Proof. vm_compute. reflexivity. Qed.

(** On a query that is not a string, which the unchecked result of
    JSON.parse can hold, [webSearch] throws before its own [try]; the
    agent loop catches it and answers with the invalid-parameters text. *)
Example webSearch_number_query_throws :
  fst (webSearch Sample.tvly_five (JObject [(lit "query", JNumber 5)]) initial_state)
    = Throws TypeError.
Proof. reflexivity. Qed.

(** * Instances of the further properties *)

Lemma plain_answer_turn_witness :
  fst (turn Sample.parse Sample.groq_chatty Sample.tvly_five 1 Sample.question initial_state)
    = Returns Settled
  /\ messages (snd (turn Sample.parse Sample.groq_chatty Sample.tvly_five 1
                         Sample.question initial_state))
     = [system_message; User Sample.question; Assistant (Some Sample.answer) None]
  /\ calls (snd (turn Sample.parse Sample.groq_chatty Sample.tvly_five 1
                      Sample.question initial_state))
     = [Completion true].
Proof.
  apply (plain_answer_turn Sample.parse Sample.groq_chatty Sample.tvly_five 0
           Sample.question initial_state
           {| msg_content := Some Sample.answer; msg_tool_calls := None |} []);
    reflexivity.
Defined.

Lemma empty_reply_turn_witness :
  fst (turn Sample.parse (Sample.scripted [Sample.silent]) Sample.tvly_five 1
            Sample.question initial_state) = Returns Settled
  /\ messages (snd (turn Sample.parse (Sample.scripted [Sample.silent]) Sample.tvly_five 1
                         Sample.question initial_state))
     = [system_message; User Sample.question]
  /\ calls (snd (turn Sample.parse (Sample.scripted [Sample.silent]) Sample.tvly_five 1
                      Sample.question initial_state))
     = [Completion true].
Proof.
  apply (empty_reply_turn Sample.parse (Sample.scripted [Sample.silent]) Sample.tvly_five 0
           Sample.question initial_state
           [{| msg_content := None; msg_tool_calls := None |}]).
  - reflexivity.
  - right. exists {| msg_content := None; msg_tool_calls := None |}, [].
    split; [reflexivity|]. split; [reflexivity|]. now left.
Defined.

Lemma session_throw_origin_witness :
  exists (earlier : list Call) (tools : bool) (transcript : list Message) (e : Exn),
    completions (snd (main_loop Sample.parse Sample.lower_ascii Sample.groq_fails_twice
                        Sample.tvly_five 1 [Sample.question; Sample.question]
                        initial_state))
      = earlier ++ [Completion tools; Completion false]
    /\ In transcript
         (history (snd (main_loop Sample.parse Sample.lower_ascii Sample.groq_fails_twice
                          Sample.tvly_five 1 [Sample.question; Sample.question]
                          initial_state)))
    /\ Sample.groq_fails_twice (length earlier) transcript tools = Throws e
    /\ is_tool_use_failed e = true
    /\ Sample.groq_fails_twice (S (length earlier))
         (messages (snd (main_loop Sample.parse Sample.lower_ascii Sample.groq_fails_twice
                           Sample.tvly_five 1 [Sample.question; Sample.question]
                           initial_state))) false
       = Throws (ApiError (Some 500%Z) None).
Proof.
  apply (session_throw_origin Sample.parse Sample.lower_ascii Sample.groq_fails_twice
           Sample.tvly_five 1 [Sample.question; Sample.question]).
  vm_compute. reflexivity.
Defined.

Lemma fallback_failure_ends_session_witness :
  fst (main_loop Sample.parse Sample.lower_ascii Sample.groq_fails_twice Sample.tvly_five 1
         [Sample.question; Sample.question] initial_state)
    = Throws (ApiError (Some 500%Z) None)
  /\ messages (snd (main_loop Sample.parse Sample.lower_ascii Sample.groq_fails_twice
                      Sample.tvly_five 1 [Sample.question; Sample.question] initial_state))
     = [system_message; User Sample.question]
  /\ calls (snd (main_loop Sample.parse Sample.lower_ascii Sample.groq_fails_twice
                   Sample.tvly_five 1 [Sample.question; Sample.question] initial_state))
     = [Completion true; Completion false].
Proof.
  apply (fallback_failure_ends_session Sample.parse Sample.lower_ascii
           Sample.groq_fails_twice Sample.tvly_five 0 Sample.question [Sample.question]
           initial_state (ApiError (Some 400%Z) (Some (lit "tool_use_failed")))
           (ApiError (Some 500%Z) None)).
  - intros H. vm_compute in H. discriminate H.
  - reflexivity.
  - reflexivity.
  - reflexivity.
Defined.

Lemma exit_word_ends_session_witness :
  main_loop Sample.parse Sample.lower_ascii Sample.groq_chatty Sample.tvly_five 1
    [lit "Bye"; Sample.question] initial_state = (Returns Exited, initial_state)
  /\ main_loop Sample.parse Sample.lower_ascii Sample.groq_chatty Sample.tvly_five 1
       ([Sample.question] ++ lit "Bye" :: [Sample.question]) initial_state
     = main_loop Sample.parse Sample.lower_ascii Sample.groq_chatty Sample.tvly_five 1
         ([Sample.question] ++ [lit "Bye"]) initial_state.
Proof.
  apply (exit_word_ends_session Sample.parse Sample.lower_ascii Sample.groq_chatty
           Sample.tvly_five 1 (lit "Bye")).
  reflexivity.
Defined.

Lemma chat_session_witness :
  exists answers : list (option JsString),
    length answers = 2
    /\ fst (main_loop Sample.parse Sample.lower_ascii Sample.groq_chatty Sample.tvly_five 1
              [Sample.question; Sample.paris] initial_state) = Returns AwaitingInput
    /\ messages (snd (main_loop Sample.parse Sample.lower_ascii Sample.groq_chatty
                        Sample.tvly_five 1 [Sample.question; Sample.paris] initial_state))
       = [system_message] ++ exchanges [Sample.question; Sample.paris] answers
    /\ calls (snd (main_loop Sample.parse Sample.lower_ascii Sample.groq_chatty
                     Sample.tvly_five 1 [Sample.question; Sample.paris] initial_state))
       = [Completion true; Completion true].
Proof.
  apply (chat_session Sample.parse Sample.lower_ascii Sample.groq_chatty Sample.tvly_five 0
           [Sample.question; Sample.paris] initial_state).
  - intros n ms tools.
    exists {| msg_content := Some Sample.answer; msg_tool_calls := None |}, [].
    split; reflexivity.
  - repeat constructor; intros H; vm_compute in H; discriminate H.
Defined.

Lemma tool_record_is_followed_by_result_witness :
  exists (tc : ToolCall) (text : JsString) (post' : list Message),
    In tc [Sample.call_search] /\ @None JsString = None
    /\ Some [Sample.call_search] = Some [tc]
    /\ [Tool (lit "call_1") (search_results_text Sample.paris Sample.five_results)]
       = Tool (tc_id tc) text :: post'.
Proof.
  apply (tool_record_is_followed_by_result Sample.parse Sample.tvly_five
           [Sample.call_search] initial_state []).
  vm_compute. reflexivity.
Defined.

Lemma nonblank_query_searched_once_witness :
  calls (snd (webSearch Sample.tvly_five
                (JObject [(lit "query", JString (lit " Paris "))]) initial_state))
    = [WebSearch (JObject [(lit "query", JString (lit " Paris "))]);
       TavilySearch (lit " Paris ")].
Proof.
  apply (nonblank_query_searched_once Sample.tvly_five
           (JObject [(lit "query", JString (lit " Paris "))]) (lit " Paris ") initial_state).
  - reflexivity.
  - intros H. inversion H as [|c0 q0 _ H1]. inversion H1 as [|c1 q1 Hc _].
    vm_compute in Hc. discriminate Hc.
Defined.

Lemma no_results_reported_witness :
  fst (webSearch Sample.tvly_none Sample.paris_args initial_state)
    = Returns (lit "No results found for " ++ dq ++ Sample.paris ++ dq
               ++ lit ". Please try a different search query.").
Proof.
  apply (no_results_reported Sample.tvly_none Sample.paris_args Sample.paris initial_state
           (Some [])).
  - reflexivity.
  - intros H. inversion H as [|c0 q0 Hc _]. vm_compute in Hc. discriminate Hc.
  - reflexivity.
  - now right.
Defined.

Lemma query_of_wrong_type_witness :
  (searches (snd (handle_tool_call Sample.parse_more Sample.tvly_five
                    Sample.call_no_query initial_state)) = []
   /\ appended initial_state
        (snd (handle_tool_call Sample.parse_more Sample.tvly_five
                Sample.call_no_query initial_state))
      = [Assistant None (Some [Sample.call_no_query]);
         Tool (lit "call_4") (lit "Error: No search query provided")])
  /\ (searches (snd (handle_tool_call Sample.parse_more Sample.tvly_five
                       Sample.call_blank_query initial_state)) = []
      /\ appended initial_state
           (snd (handle_tool_call Sample.parse_more Sample.tvly_five
                   Sample.call_blank_query initial_state))
         = [Assistant None (Some [Sample.call_blank_query]);
            Tool (lit "call_7") (lit "Error: No search query provided")])
  /\ (searches (snd (handle_tool_call Sample.parse_more Sample.tvly_five
                       Sample.call_number_query initial_state)) = []
      /\ appended initial_state
           (snd (handle_tool_call Sample.parse_more Sample.tvly_five
                   Sample.call_number_query initial_state))
         = [Tool (lit "call_5") (lit "Error: Invalid search parameters")])
  /\ (searches (snd (handle_tool_call Sample.parse_more Sample.tvly_five
                       Sample.call_null initial_state)) = []
      /\ appended initial_state
           (snd (handle_tool_call Sample.parse_more Sample.tvly_five
                   Sample.call_null initial_state))
         = [Tool (lit "call_6") (lit "Error: Invalid search parameters")]).
Proof.
  split; [|split; [|split]].
  - destruct (query_of_wrong_type Sample.parse_more Sample.tvly_five Sample.call_no_query
                (JObject []) initial_state) as (Hs & Hrec & _).
    + reflexivity.
    + reflexivity.
    + intros q H. vm_compute in H. discriminate H.
    + split; [exact Hs|]. apply (Hrec None); [reflexivity|now left].
  - destruct (query_of_wrong_type Sample.parse_more Sample.tvly_five
                Sample.call_blank_query
                (JObject [(lit "query", JString (lit "  "))]) initial_state)
      as (Hs & Hrec & _).
    + reflexivity.
    + reflexivity.
    + intros q H. vm_compute in H. injection H as <-. repeat constructor.
    + split; [exact Hs|].
      apply (Hrec (Some (JString (lit "  ")))); [reflexivity|].
      right. now exists (lit "  ").
  - destruct (query_of_wrong_type Sample.parse_more Sample.tvly_five
                Sample.call_number_query
                (JObject [(lit "query", JNumber 5)]) initial_state)
      as (Hs & _ & Href & _).
    + reflexivity.
    + reflexivity.
    + intros q H. vm_compute in H. discriminate H.
    + split; [exact Hs|].
      apply (Href (Some (JNumber 5))); [reflexivity|reflexivity|].
      intros q H. discriminate H.
  - destruct (query_of_wrong_type Sample.parse_more Sample.tvly_five Sample.call_null
                JNull initial_state) as (Hs & _ & _ & Hnull).
    + reflexivity.
    + reflexivity.
    + intros q H. vm_compute in H. discriminate H.
    + split; [exact Hs|]. apply (Hnull TypeError). reflexivity.
Defined.

Lemma tool_round_turn_witness :
  exists added : list Message,
    fst (turn Sample.parse Sample.groq_reads_results Sample.tvly_five 1
              Sample.question initial_state) = Returns Settled
    /\ messages (snd (turn Sample.parse Sample.groq_reads_results Sample.tvly_five 1
                           Sample.question initial_state))
       = [system_message] ++ [User Sample.question] ++ added
         ++ [Assistant (Some Sample.answer) None]
    /\ tool_ids added = [lit "call_1"]
    /\ completions (snd (turn Sample.parse Sample.groq_reads_results Sample.tvly_five 1
                              Sample.question initial_state))
       = [Completion true; Completion false].
Proof.
  apply (tool_round_turn Sample.parse Sample.groq_reads_results Sample.tvly_five 0
           Sample.question initial_state
           {| msg_content := None; msg_tool_calls := Some [Sample.call_search] |} []
           Sample.call_search []
           {| msg_content := Some Sample.answer; msg_tool_calls := None |} []).
  - reflexivity.
  - reflexivity.
  - reflexivity.
  - vm_compute. reflexivity.
  - reflexivity.
Defined.
